(** * Binance order-book / order-flow analyzers and swing-high detector

    A shallow embedding of the three scripts:
    - [GIT_BinanceOrderBookAnalyzer.py] and [GITOrderFlowImbalanceAnalyzer.py]
      (universe reconciliation, per-symbol flow metrics, collection in
      completion order, re-sort into rank order, short/long setup tables);
    - [GIT_SwingHighRejectionDetector.py] (three-candle pattern rules).

    Python's [float] is the IEEE binary64 format, which is Rocq's primitive
    [float]; comparisons and arithmetic are the primitive ones, and facts
    about them come from their specification over [spec_float]. *)

From stdpp Require Import base gmap sets list strings.
From Stdlib Require Import ZArith Bool Lia PeanoNat.
From Stdlib Require Import Ascii String.
From Stdlib Require Import List Permutation.
From Stdlib Require Import Floats.
Import ListNotations.

(** ** Exceptions

    A Python call either returns a value or raises. *)

Inductive exn : Set :=
| ValueError
| IndexError
| ZeroDivisionError
| OverflowError.

Inductive outcome (A : Type) : Type :=
| Ok (a : A)
| Raise (e : exn).

Arguments Ok {A} a.
Arguments Raise {A} e.

#[global] Instance outcome_bind : MBind outcome :=
  fun A B (k : A -> outcome B) (m : outcome A) =>
    match m with
    | Ok a => k a
    | Raise e => Raise e
    end.

(** A list comprehension / generator whose body may raise: elements are
    evaluated left to right and the first exception ends the evaluation. *)
Fixpoint mapM {A B : Type} (f : A -> outcome B) (l : list A) : outcome (list B) :=
  match l with
  | [] => Ok []
  | x :: xs =>
      match f x with
      | Ok y =>
          match mapM f xs with
          | Ok ys => Ok (y :: ys)
          | Raise e => Raise e
          end
      | Raise e => Raise e
      end
  end.

Lemma mapM_Ok {A B : Type} (f : A -> outcome B) (g : A -> B) (l : list A) :
  (forall x, In x l -> f x = Ok (g x)) -> mapM f l = Ok (map g l).
Proof.
  induction l as [|x xs IH]; intros H; simpl; [reflexivity|].
  rewrite (H x (or_introl eq_refl)), IH; [reflexivity|].
  intros y Hy. apply H. now right.
Qed.

Lemma filter_none {A : Type} (f : A -> bool) (l : list A) :
  (forall x, In x l -> f x = false) -> filter f l = [].
Proof.
  induction l as [|x xs IH]; intros H; simpl; [reflexivity|].
  rewrite (H x (or_introl eq_refl)). apply IH.
  intros y Hy. apply H. now right.
Qed.

(** ** Python floats *)

Module PyFloat.

Open Scope float_scope.

(** [float('inf')]. *)
Definition inf : float := infinity.

(** A JSON text field together with what [float(...)] makes of it:
    [Some x] when the text denotes the float [x], [None] when [float]
    rejects the text with [ValueError]. *)
Definition raw : Type := option float.

Definition to_float (r : raw) : outcome float :=
  match r with
  | Some x => Ok x
  | None => Raise ValueError
  end.

(** Python's [a < b] and [a > b] on floats. *)
Definition lt (a b : float) : bool := a <? b.
Definition gt (a b : float) : bool := b <? a.

(** Python's [a / b] on floats: [ZeroDivisionError] when [b == 0]
    (either signed zero), the IEEE quotient otherwise. *)
Definition truediv (a b : float) : outcome float :=
  if b =? 0 then Raise ZeroDivisionError else Ok (a / b).

(** Python's [max(a, b)]: the first argument is kept unless the second
    compares strictly greater. *)
Definition max2 (a b : float) : float :=
  if gt b a then b else a.

(** Python's [int(round(x))]: round half to even; [OverflowError] on an
    infinity and [ValueError] on a NaN. *)
Definition round_int (x : float) : outcome Z :=
  match Prim2SF x with
  | S754_nan => Raise ValueError
  | S754_infinity _ => Raise OverflowError
  | S754_zero _ => Ok 0%Z
  | S754_finite s m e =>
      let mag :=
        match e with
        | Z0 => Zpos m
        | Zpos _ => (Zpos m * 2 ^ e)%Z
        | Zneg p =>
            let d := (2 ^ Zpos p)%Z in
            let q := (Zpos m / d)%Z in
            let r := (Zpos m mod d)%Z in
            if (2 * r <? d)%Z then q
            else if (d <? 2 * r)%Z then (q + 1)%Z
            else if Z.even q then q else (q + 1)%Z
        end in
      Ok (if s then (- mag)%Z else mag)
  end.

(** *** Order facts over [spec_float] *)

Ltac sf_cases :=
  repeat match goal with
  | x : spec_float |- _ => destruct x
  end;
  simpl in *;
  repeat match goal with
  | s : bool |- _ => destruct s
  end;
  simpl in *; try congruence.

Ltac cmp_cases :=
  change PosDef.Pos.compare_cont with Pos.compare_cont in *;
  repeat match goal with
  | H : context [Pos.compare_cont Eq ?a ?b] |- _ =>
      change (Pos.compare_cont Eq a b) with (Pos.compare a b) in H
  | |- context [Pos.compare_cont Eq ?a ?b] =>
      change (Pos.compare_cont Eq a b) with (Pos.compare a b)
  end;
  repeat match goal with
  | H : context [Z.compare ?a ?b] |- _ =>
      destruct (Z.compare_spec a b); simpl in *; try congruence; try lia
  | |- context [Z.compare ?a ?b] =>
      destruct (Z.compare_spec a b); simpl in *; try congruence; try lia
  | H : context [Pos.compare ?a ?b] |- _ =>
      destruct (Pos.compare_spec a b); simpl in *; try congruence; try lia
  | |- context [Pos.compare ?a ?b] =>
      destruct (Pos.compare_spec a b); simpl in *; try congruence; try lia
  end.

Lemma SFcompare_Eq_l (a b c : spec_float) :
  SFcompare a b = Some Eq -> SFcompare a c = SFcompare b c.
Proof.
  intros H. sf_cases; cmp_cases.
Qed.

Lemma SFcompare_Eq_sym (a b : spec_float) :
  SFcompare a b = Some Eq -> SFcompare b a = Some Eq.
Proof.
  intros H. sf_cases; cmp_cases.
Qed.

Lemma SFcompare_Lt_trans (a b c : spec_float) :
  SFcompare a b = Some Lt -> SFcompare b c = Some Lt -> SFcompare a c = Some Lt.
Proof.
  intros H1 H2. sf_cases; cmp_cases.
Qed.

Lemma SFcompare_Lt_asym (a b : spec_float) :
  SFcompare a b = Some Lt -> SFcompare b a = Some Gt.
Proof.
  intros H. sf_cases; cmp_cases.
Qed.

(** *** The same facts on primitive floats *)

Lemma ltb_compare (a b : float) :
  (a <? b) = true <-> SFcompare (Prim2SF a) (Prim2SF b) = Some Lt.
Proof.
  rewrite ltb_spec. unfold SFltb.
  destruct (SFcompare _ _) as [[ | | ]|]; split; congruence.
Qed.

Lemma eqb_compare (a b : float) :
  (a =? b) = true <-> SFcompare (Prim2SF a) (Prim2SF b) = Some Eq.
Proof.
  rewrite eqb_spec. unfold SFeqb.
  destruct (SFcompare _ _) as [[ | | ]|]; split; congruence.
Qed.

Lemma ltb_asym (a b : float) : (a <? b) = true -> (b <? a) = false.
Proof.
  intros H. apply ltb_compare, SFcompare_Lt_asym in H.
  apply not_true_is_false. intros H'. apply ltb_compare in H'. congruence.
Qed.

Lemma ltb_trans (a b c : float) :
  (a <? b) = true -> (b <? c) = true -> (a <? c) = true.
Proof.
  rewrite !ltb_compare. apply SFcompare_Lt_trans.
Qed.

Lemma eqb_not_ltb (a b : float) :
  (a =? b) = true -> (a <? b) = false /\ (b <? a) = false.
Proof.
  intros H. apply eqb_compare in H.
  pose proof (SFcompare_Eq_sym _ _ H) as H'.
  split; apply not_true_is_false; intros HH; apply ltb_compare in HH; congruence.
Qed.

Lemma ltb_not_eqb (a b : float) :
  (a <? b) = true -> (a =? b) = false /\ (b =? a) = false.
Proof.
  intros H. split; apply not_true_is_false; intros HH;
    apply eqb_not_ltb in HH; destruct HH; congruence.
Qed.

Lemma eqb_ltb_l (a b c : float) :
  (a =? b) = true -> (a <? c) = (b <? c).
Proof.
  intros H. apply eqb_compare in H.
  rewrite !ltb_spec. unfold SFltb. now rewrite (SFcompare_Eq_l _ _ _ H).
Qed.

Lemma eqb_sym (a b : float) : (a =? b) = true -> (b =? a) = true.
Proof.
  rewrite !eqb_compare. apply SFcompare_Eq_sym.
Qed.

Lemma eqb_trans (a b c : float) :
  (a =? b) = true -> (b =? c) = true -> (a =? c) = true.
Proof.
  rewrite !eqb_compare. intros H1 H2. now rewrite (SFcompare_Eq_l _ _ _ H1).
Qed.

Lemma same_key_not_ltb (a b k : float) :
  (a =? k) = true -> (b =? k) = true -> (a <? b) = false.
Proof.
  intros Ha Hb. apply eqb_sym in Hb.
  apply (eqb_not_ltb a b). now apply (eqb_trans _ k).
Qed.

Lemma same_key_ltb_l (a b k c : float) :
  (a =? k) = true -> (b =? k) = true -> (a <? c) = (b <? c).
Proof.
  intros Ha Hb. apply eqb_sym in Hb.
  now apply eqb_ltb_l, (eqb_trans _ k).
Qed.

Lemma truediv_pos (a b : float) :
  (0 <? b) = true -> truediv a b = Ok (a / b).
Proof.
  intros H. unfold truediv.
  destruct (ltb_not_eqb _ _ H) as [_ ->]. reflexivity.
Qed.

Lemma shr_1_nonneg mrs : (0 <= shr_m mrs)%Z -> (0 <= shr_m (shr_1 mrs))%Z.
Proof.
  destruct mrs as [m r s]. simpl.
  destruct m as [|[p|p|]|[p|p|]]; simpl; lia.
Qed.

Lemma iter_shr_1_nonneg p mrs :
  (0 <= shr_m mrs)%Z -> (0 <= shr_m (iter_pos shr_1 p mrs))%Z.
Proof.
  revert mrs. induction p as [p IH|p IH|]; intros mrs H; simpl.
  - apply IH, IH, shr_1_nonneg, H.
  - apply IH, IH, H.
  - apply shr_1_nonneg, H.
Qed.

Lemma shr_fexp_nonneg prec emax m e l :
  (0 <= m)%Z -> (0 <= shr_m (fst (shr_fexp prec emax m e l)))%Z.
Proof.
  intros H. unfold shr_fexp, shr.
  assert (H0 : (0 <= shr_m (shr_record_of_loc m l))%Z).
  { destruct l as [|[ | | ]]; exact H. }
  destruct (_ - e)%Z; simpl; try exact H0.
  now apply iter_shr_1_nonneg.
Qed.

Lemma round_nearest_even_nonneg m l :
  (0 <= m)%Z -> (0 <= round_nearest_even m l)%Z.
Proof.
  intros H. destruct l as [|[ | | ]]; simpl; try lia.
  destruct (Z.even m); lia.
Qed.

Lemma binary_round_aux_not_nan prec emax s m e l :
  (0 <= m)%Z -> binary_round_aux prec emax s m e l <> S754_nan.
Proof.
  intros H. unfold binary_round_aux.
  pose proof (shr_fexp_nonneg prec emax m e l H) as H1.
  destruct (shr_fexp prec emax m e l) as [mrs' e']. simpl in H1.
  pose proof (shr_fexp_nonneg prec emax _ e' loc_Exact
                (round_nearest_even_nonneg _ (loc_of_shr_record mrs') H1)) as H2.
  destruct (shr_fexp prec emax _ e' loc_Exact) as [mrs'' e'']. simpl in H2.
  destruct (shr_m mrs''); try lia; try discriminate.
  destruct (e'' <=? _)%Z; discriminate.
Qed.

Lemma SFdiv_core_nonneg prec emax m1 e1 m2 e2 :
  (0 <= fst (fst (SFdiv_core_binary prec emax (Zpos m1) e1 (Zpos m2) e2)))%Z.
Proof.
  unfold SFdiv_core_binary.
  set (s := (_ - _ - _)%Z).
  set (m' := match s with Z0 => Zpos m1 | Zpos _ => Z.shiftl (Zpos m1) s | Zneg _ => 0%Z end).
  assert (Hm' : (0 <= m')%Z).
  { unfold m'. destruct s; try lia. apply Z.shiftl_nonneg. lia. }
  pose proof (Z.div_pos m' (Zpos m2) Hm' ltac:(lia)) as Hq.
  unfold Z.div in Hq.
  destruct (Z.div_eucl m' (Zpos m2)) as [q r]. exact Hq.
Qed.

Lemma SFdiv_not_nan prec emax x y :
  match x with S754_nan | S754_infinity _ => False | _ => True end ->
  match y with S754_nan | S754_zero _ => False | _ => True end ->
  SFdiv prec emax x y <> S754_nan.
Proof.
  destruct x as [sx|sx| |sx mx ex], y as [sy|sy| |sy my ey]; simpl;
    try tauto; try discriminate.
  intros _ _.
  pose proof (SFdiv_core_nonneg prec emax mx ex my ey) as H.
  destruct (SFdiv_core_binary prec emax (Zpos mx) ex (Zpos my) ey) as [[mz ez] lz].
  now apply binary_round_aux_not_nan.
Qed.

Lemma SFcompare_refl (x : spec_float) :
  x <> S754_nan -> SFcompare x x = Some Eq.
Proof.
  destruct x as [s|s| |s m e]; simpl; intros H; try congruence.
  - now destruct s.
  - rewrite Z.compare_refl, Pos.compare_cont_refl. now destruct s.
Qed.

Lemma is_nan_false (x : float) :
  is_nan x = false <-> Prim2SF x <> S754_nan.
Proof.
  unfold is_nan. rewrite negb_false_iff, eqb_compare. split.
  - intros H Hnan. rewrite Hnan in H. discriminate.
  - apply SFcompare_refl.
Qed.

Lemma is_finite_true (x : float) :
  is_finite x = true ->
  match Prim2SF x with S754_nan | S754_infinity _ => False | _ => True end.
Proof.
  unfold is_finite. rewrite negb_true_iff, orb_false_iff.
  intros [Hnan Hinf]. apply is_nan_false in Hnan.
  unfold is_infinity in Hinf. rewrite eqb_spec, abs_spec in Hinf.
  destruct (Prim2SF x) as [s|s| |s m e]; try exact I; try congruence.
  discriminate.
Qed.

Lemma pos_not_zero (d : float) :
  (0 <? d) = true ->
  match Prim2SF d with S754_nan | S754_zero _ => False | _ => True end.
Proof.
  rewrite ltb_compare. change (Prim2SF 0) with (S754_zero false).
  destruct (Prim2SF d) as [s|s| |s m e]; simpl; try discriminate; auto.
Qed.

(** A finite numerator over a positive denominator is never a NaN. *)
Lemma div_not_nan (n d : float) :
  is_finite n = true -> (0 <? d) = true -> is_nan (n / d) = false.
Proof.
  intros Hn Hd. apply is_nan_false. rewrite div_spec.
  apply SFdiv_not_nan; [now apply is_finite_true|now apply pos_not_zero].
Qed.

Lemma SFdiv_finite_den_not_nan prec emax x y :
  x <> S754_nan ->
  match y with S754_finite _ _ _ => True | _ => False end ->
  SFdiv prec emax x y <> S754_nan.
Proof.
  destruct x as [sx|sx| |sx mx ex], y as [sy|sy| |sy my ey]; simpl;
    try tauto; try discriminate.
  intros _ _.
  pose proof (SFdiv_core_nonneg prec emax mx ex my ey) as H.
  destruct (SFdiv_core_binary prec emax (Zpos mx) ex (Zpos my) ey) as [[mz ez] lz].
  now apply binary_round_aux_not_nan.
Qed.

Lemma ltb_not_nan (a b : float) :
  (a <? b) = true -> is_nan a = false /\ is_nan b = false.
Proof.
  rewrite ltb_compare, !is_nan_false. intros H.
  split; intros Hnan; rewrite Hnan in H; try discriminate.
  destruct (Prim2SF a); discriminate.
Qed.

(** A quotient by a denominator strictly between 0 and 1 is a NaN only
    if the numerator is. *)
Lemma div_fraction_not_nan (a b : float) :
  is_nan a = false -> (0 <? b) = true -> (b <? 1) = true ->
  is_nan (a / b) = false.
Proof.
  rewrite !is_nan_false, !ltb_compare, div_spec.
  change (Prim2SF 0) with (S754_zero false).
  change (Prim2SF 1) with (S754_finite false 4503599627370496 (-52)).
  intros Ha H0 H1. apply SFdiv_finite_den_not_nan; [exact Ha|].
  destruct (Prim2SF b) as [s|s| |s m e]; try exact I; try discriminate.
  destruct s; discriminate.
Qed.

End PyFloat.

(** ** Python's [list.sort(key=..., reverse=...)]

    CPython sorts the keys with [<] only.  A list is sorted by binary
    insertion: each element, taken in input order, goes into the sorted
    prefix to the right of every element that is not greater than it, that
    is, just before the first element it is strictly less than.  With
    [reverse=True] the list is reversed, sorted the same way, and reversed
    again, which is what keeps equal keys in input order.  On keys that
    [<] orders totally (no NaN among them) the run detection and merging
    of the full algorithm give the same list. *)

Module PySort.

Section Sort.
Variables (A K : Type).
Variable ltK : K -> K -> bool.
Variable key : A -> K.

Fixpoint insert (x : A) (acc : list A) : list A :=
  match acc with
  | [] => [x]
  | y :: ys => if ltK (key x) (key y) then x :: acc else y :: insert x ys
  end.

Definition sort_asc (l : list A) : list A :=
  fold_left (fun acc x => insert x acc) l [].

Definition sort (reverse : bool) (l : list A) : list A :=
  if reverse then rev (sort_asc (rev l)) else sort_asc l.

(** No element is strictly less than an element before it. *)
Fixpoint no_inversion (l : list A) : Prop :=
  match l with
  | [] => True
  | y :: ys => Forall (fun z => ltK (key z) (key y) = false) ys /\ no_inversion ys
  end.

Lemma insert_perm (x : A) (acc : list A) : Permutation (insert x acc) (x :: acc).
Proof.
  induction acc as [|y ys IH]; simpl; [reflexivity|].
  destruct (ltK (key x) (key y)); [reflexivity|].
  rewrite IH. apply perm_swap.
Qed.

Lemma fold_insert_perm (l acc : list A) :
  Permutation (fold_left (fun acc x => insert x acc) l acc) (acc ++ l).
Proof.
  revert acc. induction l as [|x xs IH]; intros acc; simpl.
  - now rewrite app_nil_r.
  - rewrite IH, insert_perm.
    change (x :: acc) with ([x] ++ acc).
    rewrite (Permutation_app_comm [x] acc), <- app_assoc. reflexivity.
Qed.

Lemma sort_asc_perm (l : list A) : Permutation (sort_asc l) l.
Proof. unfold sort_asc. now rewrite fold_insert_perm. Qed.

Lemma sort_perm (reverse : bool) (l : list A) : Permutation (sort reverse l) l.
Proof.
  destruct reverse; simpl; [|apply sort_asc_perm].
  now rewrite <- Permutation_rev, sort_asc_perm, <- Permutation_rev.
Qed.

Lemma sort_In (reverse : bool) (l : list A) (x : A) :
  In x (sort reverse l) <-> In x l.
Proof.
  split; apply Permutation_in; [|symmetry]; apply sort_perm.
Qed.

Section Order.
Hypothesis lt_trans :
  forall a b c, ltK a b = true -> ltK b c = true -> ltK a c = true.
Hypothesis lt_asym : forall a b, ltK a b = true -> ltK b a = false.

Lemma insert_no_inversion (x : A) (acc : list A) :
  no_inversion acc -> no_inversion (insert x acc).
Proof.
  induction acc as [|y ys IH]; simpl; intros H.
  - split; [constructor|exact I].
  - destruct H as [Hy Hys].
    destruct (ltK (key x) (key y)) eqn:Hxy; simpl.
    + split; [|split; assumption].
      constructor; [now apply lt_asym|].
      rewrite Forall_forall in *. intros z Hz.
      destruct (ltK (key z) (key x)) eqn:Hzx; [|reflexivity].
      rewrite <- (Hy z Hz). symmetry. now apply lt_trans with (key x).
    + split; [|now apply IH].
      rewrite Forall_forall in *. intros z Hz.
      apply (Permutation_in _ (insert_perm x ys)) in Hz.
      destruct Hz as [<-|Hz]; [assumption|now apply Hy].
Qed.

Lemma fold_insert_no_inversion (l acc : list A) :
  no_inversion acc ->
  no_inversion (fold_left (fun acc x => insert x acc) l acc).
Proof.
  revert acc. induction l as [|x xs IH]; intros acc H; simpl; [assumption|].
  apply IH. now apply insert_no_inversion.
Qed.

Lemma sort_asc_no_inversion (l : list A) : no_inversion (sort_asc l).
Proof. apply fold_insert_no_inversion. exact I. Qed.

(** *** Stability: the elements of one key class keep their order *)

Variable same : A -> bool.
Hypothesis same_not_lt :
  forall a b, same a = true -> same b = true -> ltK (key a) (key b) = false.
Hypothesis same_lt_l :
  forall a b c, same a = true -> same b = true ->
                ltK (key a) c = ltK (key b) c.

Lemma insert_stable (x : A) (acc : list A) :
  no_inversion acc ->
  filter same (insert x acc) = filter same acc ++ filter same [x].
Proof.
  induction acc as [|y ys IH]; intros H; [reflexivity|].
  destruct H as [Hy Hys]. cbn [insert].
  destruct (ltK (key x) (key y)) eqn:Hxy.
  - cbn [filter]. destruct (same x) eqn:Hx; [|now rewrite app_nil_r].
    assert (Hy' : same y = false).
    { apply not_true_is_false. intros Hs.
      rewrite (same_not_lt x y Hx Hs) in Hxy. discriminate. }
    rewrite Hy'.
    assert (Hnil : filter same ys = []).
    { apply filter_none. rewrite Forall_forall in Hy.
      intros z Hz. apply not_true_is_false. intros Hs.
      specialize (Hy z Hz).
      rewrite (same_lt_l z x (key y) Hs Hx) in Hy. congruence. }
    rewrite Hnil. reflexivity.
  - cbn [filter]. rewrite (IH Hys).
    destruct (same y); reflexivity.
Qed.

Lemma fold_insert_stable (l acc : list A) :
  no_inversion acc ->
  filter same (fold_left (fun acc x => insert x acc) l acc)
  = filter same acc ++ filter same l.
Proof.
  revert acc. induction l as [|x xs IH]; intros acc H; simpl fold_left.
  - now rewrite app_nil_r.
  - rewrite IH by now apply insert_no_inversion.
    rewrite insert_stable by assumption.
    rewrite <- app_assoc. cbn [filter app].
    destruct (same x); reflexivity.
Qed.

Lemma sort_stable (reverse : bool) (l : list A) :
  filter same (sort reverse l) = filter same l.
Proof.
  assert (Hasc : forall l', filter same (sort_asc l') = filter same l').
  { intros l'. unfold sort_asc. now rewrite fold_insert_stable. }
  destruct reverse; simpl; [|apply Hasc].
  now rewrite filter_rev, Hasc, filter_rev, rev_involutive.
Qed.
End Order.

(** Two arrangements of the same elements without inversion coincide
    when elements that the order cannot tell apart are equal. *)
Lemma no_inversion_unique (l1 l2 : list A) :
  (forall a b, In a l1 -> In b l1 ->
               ltK (key a) (key b) = false -> ltK (key b) (key a) = false ->
               a = b) ->
  Permutation l1 l2 -> no_inversion l1 -> no_inversion l2 -> l1 = l2.
Proof.
  revert l2. induction l1 as [|a l1 IH]; intros l2 Hinj Hp H1 H2.
  - now apply Permutation_nil in Hp.
  - destruct l2 as [|b l2]; [now apply Permutation_sym, Permutation_nil in Hp|].
    destruct H1 as [Ha H1], H2 as [Hb H2]. rewrite Forall_forall in *.
    assert (Hab : a = b).
    { assert (Hb1 : In b (a :: l1))
        by (apply (Permutation_in _ (Permutation_sym Hp)); now left).
      assert (Ha2 : In a (b :: l2))
        by (apply (Permutation_in _ Hp); now left).
      destruct Hb1 as [->|Hb1]; [reflexivity|].
      destruct Ha2 as [->|Ha2]; [reflexivity|].
      apply Hinj; [now left|now right| |]; auto. }
    subst b. f_equal. apply IH; try assumption.
    + intros x y Hx Hy. apply Hinj; now right.
    + now apply Permutation_cons_inv in Hp.
Qed.
End Sort.

Arguments insert {A K} ltK key x acc.
Arguments sort_asc {A K} ltK key l.
Arguments sort {A K} ltK key reverse l.
Arguments no_inversion {A K} ltK key l.

End PySort.

(** ** Swing-high rejection detector ([GIT_SwingHighRejectionDetector.py]) *)

Module Swing.
Import PyFloat.

Open Scope float_scope.

(** One row of the candles feed,
    [[timestamp, open, high, low, close, volume, ...]], field by field. *)
Definition kline : Type := list raw.

Record candle : Type := Candle {
  c_open : float;
  c_high : float;
  c_low : float;
  c_close : float
}.

(** What the alert block prints: the coin and the live price. *)
Record alert : Type := Alert {
  alert_coin : string;
  alert_price : float
}.

(** [klines[-i]] for [i >= 1]. *)
Definition getitem_neg (klines : list kline) (i : nat) : outcome kline :=
  if (List.length klines <? i)%nat then Raise IndexError
  else match nth_error klines (List.length klines - i) with
       | Some k => Ok k
       | None => Raise IndexError
       end.

(** [k[1:5]]: a slice never raises, it is just shorter on a short row. *)
Definition slice_1_5 (k : kline) : list raw := firstn 4 (skipn 1 k).

(** [[float(p) for p in klines[-i][1:5]]]. *)
Definition floats_of (klines : list kline) (i : nat) : outcome (list float) :=
  k ← getitem_neg klines i; mapM to_float (slice_1_5 k).

(** [o, h, l, c = values]: [ValueError] unless there are four values. *)
Definition unpack (values : list float) : outcome candle :=
  match values with
  | [o; h; l; c] => Ok (Candle o h l c)
  | _ => Raise ValueError
  end.

Section Rules.
Variables left mid curr : candle.

Definition rule1 : bool := lt (c_close curr) (c_open curr).
Definition rule2 : bool := gt (c_close left) (c_open left).
Definition rule3 : bool := lt (c_high left) (c_high mid).
Definition mid_candle_body_top : float := max2 (c_open mid) (c_close mid).
Definition rule4 : bool := lt mid_candle_body_top (c_high left).
Definition rule5 : bool := lt (c_open left) (c_low mid).
Definition rule6 : bool := lt (c_high curr) (c_high mid).
Definition mid_candle_body_size : float := abs (c_open mid - c_close mid).
Definition left_candle_body_size : float := abs (c_open left - c_close left).
Definition rule7 : bool := lt mid_candle_body_size left_candle_body_size.

(** [all([rule1, ..., rule7])]. *)
Definition all_rules : bool :=
  forallb (fun b : bool => b) [rule1; rule2; rule3; rule4; rule5; rule6; rule7].
End Rules.

(** [check_conditions(symbol, total_symbols)] with the candles feed's answer
    for the symbol passed in ([None]: the request failed); the result is
    the alert printed, if any.  The progress counter and the pause do not
    bear on it. *)
Definition check_conditions (symbol : string) (klines : option (list kline))
  : outcome (option alert) :=
  match klines with
  | None => Ok None
  | Some klines =>
      if (match klines with [] => true | _ => false end
          || (List.length klines <? 3)%nat)%bool
      then Ok None
      else
        let parsed :=
          current_candle ← floats_of klines 1;
          mid_candle ← floats_of klines 2;
          left_candle ← floats_of klines 3;
          Ok (current_candle, mid_candle, left_candle) in
        match parsed with
        | Raise ValueError | Raise IndexError => Ok None
        | Raise e => Raise e
        | Ok (current_candle, mid_candle, left_candle) =>
            curr ← unpack current_candle;
            mid ← unpack mid_candle;
            left ← unpack left_candle;
            if all_rules left mid curr
            then Ok (Some (Alert symbol (c_close curr)))
            else Ok None
        end
  end.

(** [executor.map(check_conditions, symbols, ...)]: the results are never
    read, so what a task raises stays in its future; the scan's output is
    the alerts, in the order the tasks reach the alert block. *)
Definition emitted (o : outcome (option alert)) : list alert :=
  match o with
  | Ok (Some a) => [a]
  | _ => []
  end.

Definition scan (feed : string -> option (list kline)) (order : list string)
  : list alert :=
  flat_map (fun symbol => emitted (check_conditions symbol (feed symbol))) order.

(** The three rows the detector reads, oldest first. *)
Definition last3 (klines : list kline) : list kline :=
  skipn (List.length klines - 3) klines.

(** One of the four price fields of the row is a text [float] rejects. *)
Definition garbled (k : kline) : bool :=
  existsb (fun r : raw => match r with None => true | Some _ => false end)
          (slice_1_5 k).

(** Both steps a row goes through: the conversion and the unpacking. *)
Definition candle_of (k : kline) : outcome candle :=
  values ← mapM to_float (slice_1_5 k); unpack values.

Lemma length_app3 (pre : list kline) (kl km kc : kline) :
  List.length (pre ++ [kl; km; kc]) = (List.length pre + 3)%nat.
Proof. now rewrite length_app. Qed.

Lemma getitem_neg_last3 (pre : list kline) (kl km kc : kline) :
  getitem_neg (pre ++ [kl; km; kc]) 1 = Ok kc
  /\ getitem_neg (pre ++ [kl; km; kc]) 2 = Ok km
  /\ getitem_neg (pre ++ [kl; km; kc]) 3 = Ok kl.
Proof.
  unfold getitem_neg. rewrite length_app3.
  repeat split.
  - destruct (Nat.ltb_spec (List.length pre + 3) 1); [lia|].
    rewrite nth_error_app2 by lia.
    now replace (List.length pre + 3 - 1 - List.length pre)%nat with 2%nat by lia.
  - destruct (Nat.ltb_spec (List.length pre + 3) 2); [lia|].
    rewrite nth_error_app2 by lia.
    now replace (List.length pre + 3 - 2 - List.length pre)%nat with 1%nat by lia.
  - destruct (Nat.ltb_spec (List.length pre + 3) 3); [lia|].
    rewrite nth_error_app2 by lia.
    now replace (List.length pre + 3 - 3 - List.length pre)%nat with 0%nat by lia.
Qed.

Lemma guard_app3 (pre : list kline) (kl km kc : kline) :
  (match pre ++ [kl; km; kc] with [] => true | _ => false end
   || (List.length (pre ++ [kl; km; kc]) <? 3)%nat)%bool = false.
Proof.
  rewrite length_app3.
  destruct (Nat.ltb_spec (List.length pre + 3) 3); [lia|].
  destruct pre; reflexivity.
Qed.

Lemma candle_of_Ok (k : kline) (c : candle) :
  candle_of k = Ok c ->
  exists values, mapM to_float (slice_1_5 k) = Ok values /\ unpack values = Ok c.
Proof.
  unfold candle_of. destruct (mapM to_float (slice_1_5 k)) as [values|e]; simpl.
  - intros H. now exists values.
  - discriminate.
Qed.

(** On a feed of at least three well-formed rows the detector is the
    seven-rule test on the last three. *)
Lemma check_conditions_window (symbol : string) (pre : list kline)
      (kl km kc : kline) (left mid curr : candle) :
  candle_of kl = Ok left -> candle_of km = Ok mid -> candle_of kc = Ok curr ->
  check_conditions symbol (Some (pre ++ [kl; km; kc]))
  = Ok (if all_rules left mid curr
        then Some (Alert symbol (c_close curr)) else None).
Proof.
  intros Hl Hm Hc.
  apply candle_of_Ok in Hl as (vl & Hvl & Hul).
  apply candle_of_Ok in Hm as (vm & Hvm & Hum).
  apply candle_of_Ok in Hc as (vc & Hvc & Huc).
  unfold check_conditions. rewrite guard_app3.
  unfold floats_of.
  destruct (getitem_neg_last3 pre kl km kc) as (-> & -> & ->).
  simpl. rewrite Hvc. simpl. rewrite Hvm. simpl. rewrite Hvl. simpl.
  rewrite Huc. simpl. rewrite Hum. simpl. rewrite Hul. simpl.
  destruct (all_rules left mid curr); reflexivity.
Qed.

Lemma all_rules_true (left mid curr : candle) :
  all_rules left mid curr = true <->
  rule1 curr = true /\ rule2 left = true /\ rule3 left mid = true
  /\ rule4 left mid = true /\ rule5 left mid = true
  /\ rule6 mid curr = true /\ rule7 left mid = true.
Proof.
  unfold all_rules. cbn [forallb]. rewrite !andb_true_iff. tauto.
Qed.

Lemma all_rules_false (left mid curr : candle) :
  rule1 curr = false \/ rule2 left = false \/ rule3 left mid = false
  \/ rule4 left mid = false \/ rule5 left mid = false
  \/ rule6 mid curr = false \/ rule7 left mid = false ->
  all_rules left mid curr = false.
Proof.
  intros H. apply not_true_is_false. rewrite all_rules_true.
  intros (H1 & H2 & H3 & H4 & H5 & H6 & H7).
  repeat destruct H as [H|H]; congruence.
Qed.

Lemma mapM_to_float_garbled (l : list raw) :
  existsb (fun r : raw => match r with None => true | Some _ => false end) l = true ->
  mapM to_float l = Raise ValueError.
Proof.
  induction l as [|[x|] xs IH]; simpl; intros H; try discriminate.
  - now rewrite IH.
  - reflexivity.
Qed.

Lemma mapM_to_float_exn (l : list raw) (e : exn) :
  mapM to_float l = Raise e -> e = ValueError.
Proof.
  induction l as [|[x|] xs IH]; simpl; try discriminate.
  - destruct (mapM to_float xs); [discriminate|].
    intros H. apply IH. congruence.
  - congruence.
Qed.

Lemma split_last3 (klines : list kline) :
  (3 <= List.length klines)%nat ->
  exists pre kl km kc, klines = pre ++ [kl; km; kc] /\ last3 klines = [kl; km; kc].
Proof.
  intros H. unfold last3.
  pose proof (firstn_skipn (List.length klines - 3) klines) as Hsplit.
  pose proof (length_skipn (List.length klines - 3) klines) as Hlen.
  destruct (skipn (List.length klines - 3) klines) as [|kl [|km [|kc [|k rest]]]];
    simpl in Hlen; try lia.
  exists (firstn (List.length klines - 3) klines), kl, km, kc.
  split; [now symmetry|reflexivity].
Qed.

(** The feed's answer leaves the detector without a three-candle window:
    the request failed, fewer than three rows came back, or a price field
    of one of the last three rows is not a number. *)
Definition evidence_unavailable (klines : option (list kline)) : Prop :=
  match klines with
  | None => True
  | Some klines =>
      (List.length klines < 3)%nat \/ existsb garbled (last3 klines) = true
  end.

(** The fixture of the worked candle example: left O=10 H=13 L=9 C=12,
    middle O=12 H=15 L=11 C=11, current O=11 H=11 L=9 C=9. *)
Definition example_left : kline := [Some 0; Some 10; Some 13; Some 9; Some 12; Some 100].
Definition example_mid : kline := [Some 1; Some 12; Some 15; Some 11; Some 11; Some 100].
Definition example_curr : kline := [Some 2; Some 11; Some 11; Some 9; Some 9; Some 100].

(** C2. On every three-candle window (the last three rows of a feed that
    answers with well-formed rows) the alert is emitted if and only if the
    seven rules all hold; when any one of them is false nothing is
    emitted. *)
Theorem signal_iff_all_seven_rules (symbol : string) (pre : list kline)
        (kl km kc : kline) (left mid curr : candle) :
  candle_of kl = Ok left -> candle_of km = Ok mid -> candle_of kc = Ok curr ->
  (check_conditions symbol (Some (pre ++ [kl; km; kc]))
   = Ok (Some (Alert symbol (c_close curr)))
   <-> rule1 curr = true /\ rule2 left = true /\ rule3 left mid = true
       /\ rule4 left mid = true /\ rule5 left mid = true
       /\ rule6 mid curr = true /\ rule7 left mid = true)
  /\ (rule1 curr = false \/ rule2 left = false \/ rule3 left mid = false
      \/ rule4 left mid = false \/ rule5 left mid = false
      \/ rule6 mid curr = false \/ rule7 left mid = false ->
      check_conditions symbol (Some (pre ++ [kl; km; kc])) = Ok None
      /\ scan (fun _ => Some (pre ++ [kl; km; kc])) [symbol] = []).
Proof.
  intros Hl Hm Hc.
  pose proof (check_conditions_window symbol pre _ _ _ _ _ _ Hl Hm Hc) as Hcheck.
  split.
  - rewrite <- all_rules_true, Hcheck.
    destruct (all_rules left mid curr); split; intros H;
      try reflexivity; discriminate.
  - intros Hfalse. apply all_rules_false in Hfalse.
    rewrite Hfalse in Hcheck. split; [exact Hcheck|].
    unfold scan. cbn [flat_map]. now rewrite Hcheck.
Qed.

Lemma signal_iff_all_seven_rules_witness :
  check_conditions "BTCUSDT" (Some ([] ++ [example_left; example_mid; example_curr]))
  = Ok (Some (Alert "BTCUSDT" 9)).
Proof.
  apply (proj1 (signal_iff_all_seven_rules "BTCUSDT" []
                  example_left example_mid example_curr
                  (Candle 10 13 9 12) (Candle 12 15 11 11) (Candle 11 11 9 9)
                  eq_refl eq_refl eq_refl)).
  repeat split.
Defined.

(** C10. Every rule compares strictly: when any of the seven compared pairs
    is exactly equal (current close and open, left close and open, the two
    highs, middle body top and left high, left open and middle low, current
    and middle high, the two body sizes) the pattern is not confirmed and
    nothing is emitted. *)
Theorem equal_pair_no_signal (symbol : string) (pre : list kline)
        (kl km kc : kline) (left mid curr : candle) :
  candle_of kl = Ok left -> candle_of km = Ok mid -> candle_of kc = Ok curr ->
  (c_close curr =? c_open curr) = true
  \/ (c_close left =? c_open left) = true
  \/ (c_high mid =? c_high left) = true
  \/ (mid_candle_body_top mid =? c_high left) = true
  \/ (c_low mid =? c_open left) = true
  \/ (c_high curr =? c_high mid) = true
  \/ (mid_candle_body_size mid =? left_candle_body_size left) = true ->
  all_rules left mid curr = false
  /\ check_conditions symbol (Some (pre ++ [kl; km; kc])) = Ok None
  /\ scan (fun _ => Some (pre ++ [kl; km; kc])) [symbol] = [].
Proof.
  intros Hl Hm Hc Heq.
  assert (Hfalse : all_rules left mid curr = false).
  { apply all_rules_false.
    unfold rule1, rule2, rule3, rule4, rule5, rule6, rule7, lt, gt.
    destruct Heq as [H|[H|[H|[H|[H|[H|H]]]]]];
      apply eqb_not_ltb in H; destruct H as [H1 H2]; tauto. }
  pose proof (check_conditions_window symbol pre _ _ _ _ _ _ Hl Hm Hc) as Hcheck.
  rewrite Hfalse in Hcheck. repeat split; [exact Hfalse|exact Hcheck|].
  unfold scan. cbn [flat_map]. now rewrite Hcheck.
Qed.

(** The worked fixture with the current candle turned into a doji
    (close = open = 11): every other rule still holds. *)
Lemma equal_pair_no_signal_witness :
  check_conditions "BTCUSDT"
    (Some ([] ++ [example_left; example_mid;
                  [Some 2; Some 11; Some 11; Some 9; Some 11; Some 100]]))
  = Ok None.
Proof.
  apply (equal_pair_no_signal "BTCUSDT" []
           example_left example_mid
           [Some 2; Some 11; Some 11; Some 9; Some 11; Some 100]
           (Candle 10 13 9 12) (Candle 12 15 11 11) (Candle 11 11 9 11)
           eq_refl eq_refl eq_refl).
  left. reflexivity.
Defined.

(** C8. When the candle request fails, or fewer than three candles come
    back, or a price field of one of the three candles read is not a
    number, the detector returns normally without an alert, so nothing is
    raised for that symbol and the scan's alerts are those of the other
    symbols, unchanged. *)
Theorem unavailable_evidence_is_skipped
        (feed : string -> option (list kline)) (symbol : string) :
  evidence_unavailable (feed symbol) ->
  check_conditions symbol (feed symbol) = Ok None
  /\ forall before after : list string,
       scan feed (before ++ symbol :: after) = scan feed (before ++ after).
Proof.
  intros Hbad.
  assert (Hskip : check_conditions symbol (feed symbol) = Ok None).
  { destruct (feed symbol) as [klines|]; [|reflexivity].
    simpl in Hbad. unfold check_conditions.
    destruct (Nat.lt_ge_cases (List.length klines) 3) as [Hlt|Hge].
    - apply Nat.ltb_lt in Hlt. now rewrite Hlt, orb_true_r.
    - destruct Hbad as [Hshort|Hgarbled]; [lia|].
      destruct (split_last3 klines Hge) as (pre & kl & km & kc & -> & Hlast).
      rewrite Hlast in Hgarbled. cbn [existsb] in Hgarbled.
      rewrite orb_false_r in Hgarbled.
      rewrite guard_app3. unfold floats_of.
      destruct (getitem_neg_last3 pre kl km kc) as (-> & -> & ->).
      cbn [mbind outcome_bind].
      destruct (mapM to_float (slice_1_5 kc)) as [vc|ec] eqn:Hvc;
        [|now rewrite (mapM_to_float_exn _ _ Hvc)].
      destruct (mapM to_float (slice_1_5 km)) as [vm|em] eqn:Hvm;
        [|now rewrite (mapM_to_float_exn _ _ Hvm)].
      destruct (mapM to_float (slice_1_5 kl)) as [vl|el] eqn:Hvl;
        [|now rewrite (mapM_to_float_exn _ _ Hvl)].
      exfalso. unfold garbled in Hgarbled.
      apply orb_true_iff in Hgarbled as [H|Hgarbled];
        [|apply orb_true_iff in Hgarbled as [H|H]];
        apply mapM_to_float_garbled in H; congruence. }
  split; [exact Hskip|].
  intros before after. unfold scan.
  rewrite !flat_map_app. cbn [flat_map]. now rewrite Hskip.
Qed.

Lemma unavailable_evidence_is_skipped_witness :
  check_conditions "NEWUSDT"
    ((fun _ => Some [example_mid; example_curr]) "NEWUSDT") = Ok None.
Proof.
  apply (unavailable_evidence_is_skipped
           (fun _ => Some [example_mid; example_curr]) "NEWUSDT").
  left. simpl. lia.
Defined.

End Swing.

(** ** Universe reconciliation (the matching loop of both [main]s) *)

Module Universe.

Open Scope string_scope.
Open Scope list_scope.

(** [str.upper()], on ASCII letters. *)
Definition upper_ascii (c : ascii) : ascii :=
  let n := nat_of_ascii c in
  if ((97 <=? n)%nat && (n <=? 122)%nat)%bool then ascii_of_nat (n - 32) else c.

Fixpoint upper (s : string) : string :=
  match s with
  | EmptyString => EmptyString
  | String c rest => String (upper_ascii c) (upper rest)
  end.

(** One record of the ranked listing: a JSON object, of which only the
    text fields matter here. *)
Definition coin_data : Type := gmap string string.

(** [coin_data.get('symbol', '')] then [symbol.upper() + "USDT"]. *)
Definition binance_symbol_of (coin : coin_data) : string :=
  let symbol := default "" (coin !! "symbol") in
  (upper symbol ++ "USDT")%string.

(** The matching loop, [coins_to_analyze] being the list built so far.
    The result is the list at the end of the loop together with the
    candidates the loop never looked at (none unless it left by [break]). *)
Fixpoint match_loop (FINAL_COIN_COUNT : nat) (binance_symbols_set : gset string)
         (cmc_data : list coin_data) (coins_to_analyze : list string)
  : list string * list coin_data :=
  match cmc_data with
  | [] => (coins_to_analyze, [])
  | coin :: rest =>
      let binance_symbol := binance_symbol_of coin in
      let coins_to_analyze :=
        if bool_decide (binance_symbol ∈ binance_symbols_set)
        then coins_to_analyze ++ [binance_symbol]
        else coins_to_analyze in
      if (List.length coins_to_analyze =? FINAL_COIN_COUNT)%nat
      then (coins_to_analyze, rest)
      else match_loop FINAL_COIN_COUNT binance_symbols_set rest coins_to_analyze
  end.

Definition resolve (FINAL_COIN_COUNT : nat) (binance_symbols_set : gset string)
           (cmc_data : list coin_data) : list string :=
  fst (match_loop FINAL_COIN_COUNT binance_symbols_set cmc_data []).

Definition unexamined (FINAL_COIN_COUNT : nat) (binance_symbols_set : gset string)
           (cmc_data : list coin_data) : list coin_data :=
  snd (match_loop FINAL_COIN_COUNT binance_symbols_set cmc_data []).

(** The candidates' venue identifiers that the venue trades, in rank order. *)
Definition matches (binance_symbols_set : gset string) (cmc_data : list coin_data)
  : list string :=
  filter (fun s => bool_decide (s ∈ binance_symbols_set))
         (map binance_symbol_of cmc_data).

Lemma filter_sublist {A : Type} (f : A -> bool) (l : list A) :
  sublist (filter f l) l.
Proof.
  induction l as [|x xs IH]; simpl; [constructor|].
  destruct (f x); now constructor.
Qed.

Lemma match_loop_fst (target : nat) (X : gset string)
      (cmc_data : list coin_data) (acc : list string) :
  (List.length acc < target)%nat ->
  fst (match_loop target X cmc_data acc)
  = acc ++ firstn (target - List.length acc) (matches X cmc_data).
Proof.
  revert acc. induction cmc_data as [|coin rest IH]; intros acc Hlt.
  - unfold matches. simpl. now rewrite firstn_nil, app_nil_r.
  - unfold matches in *. cbn [match_loop map filter].
    destruct (bool_decide (binance_symbol_of coin ∈ X)).
    + rewrite length_app. cbn [List.length].
      destruct (Nat.eqb_spec (List.length acc + 1) target) as [Heq|Hne].
      * replace (target - List.length acc)%nat with 1%nat by lia.
        cbn [fst firstn]. reflexivity.
      * rewrite IH by (rewrite length_app; cbn [List.length]; lia).
        rewrite length_app. cbn [List.length].
        replace (target - List.length acc)%nat
          with (S (target - (List.length acc + 1)))%nat by lia.
        cbn [firstn]. now rewrite <- app_assoc.
    + destruct (Nat.eqb_spec (List.length acc) target) as [Heq|Hne]; [lia|].
      now apply IH.
Qed.

(** Whatever the target, the loop only ever appends matches in rank order. *)
Lemma match_loop_prefix (target : nat) (X : gset string)
      (cmc_data : list coin_data) (acc : list string) :
  exists n, fst (match_loop target X cmc_data acc)
            = acc ++ firstn n (matches X cmc_data).
Proof.
  revert acc. induction cmc_data as [|coin rest IH]; intros acc.
  - exists 0%nat. simpl. now rewrite app_nil_r.
  - unfold matches in *. cbn [match_loop map filter].
    destruct (bool_decide (binance_symbol_of coin ∈ X)).
    + destruct (List.length (acc ++ [binance_symbol_of coin]) =? target)%nat.
      * now exists 1%nat.
      * destruct (IH (acc ++ [binance_symbol_of coin])) as [n Hn].
        exists (S n). rewrite Hn. cbn [firstn]. now rewrite <- app_assoc.
    + destruct (List.length acc =? target)%nat.
      * exists 0%nat. simpl. now rewrite app_nil_r.
      * apply IH.
Qed.

(** Where the loop stops: the candidates examined are a prefix of the
    listing, their matches are the universe, and when the target is reached
    the last one examined is the match that completed it. *)
Lemma match_loop_stop (target : nat) (X : gset string)
      (cmc_data : list coin_data) (acc : list string) :
  (List.length acc < target)%nat ->
  exists examined,
    cmc_data = examined ++ snd (match_loop target X cmc_data acc)
    /\ fst (match_loop target X cmc_data acc) = acc ++ matches X examined
    /\ (List.length (fst (match_loop target X cmc_data acc)) = target ->
        exists earlier coin,
          examined = earlier ++ [coin]
          /\ bool_decide (binance_symbol_of coin ∈ X) = true).
Proof.
  revert acc. induction cmc_data as [|coin rest IH]; intros acc Hlt.
  - exists []. simpl. rewrite app_nil_r. repeat split. intros H. lia.
  - cbn [match_loop].
    destruct (bool_decide (binance_symbol_of coin ∈ X)) eqn:Hmem.
    + destruct (Nat.eqb_spec (List.length (acc ++ [binance_symbol_of coin])) target)
        as [Heq|Hne].
      * exists [coin]. cbn [fst snd]. unfold matches. cbn [map filter].
        rewrite Hmem. repeat split. intros _. now exists [], coin.
      * rewrite length_app in Hne. cbn [List.length] in Hne.
        destruct (IH (acc ++ [binance_symbol_of coin])) as (ex & H1 & H2 & H3).
        { rewrite length_app. cbn [List.length]. lia. }
        exists (coin :: ex). repeat split.
        -- cbn [app]. now f_equal.
        -- rewrite H2. unfold matches. cbn [map filter]. rewrite Hmem.
           now rewrite <- app_assoc.
        -- intros Hlen. destruct (H3 Hlen) as (earlier & c & -> & Hc).
           now exists (coin :: earlier), c.
    + destruct (Nat.eqb_spec (List.length acc) target) as [Heq|Hne]; [lia|].
      destruct (IH acc Hlt) as (ex & H1 & H2 & H3).
      exists (coin :: ex). repeat split.
      * cbn [app]. now f_equal.
      * rewrite H2. unfold matches. cbn [map filter]. now rewrite Hmem.
      * intros Hlen. destruct (H3 Hlen) as (earlier & c & -> & Hc).
        now exists (coin :: earlier), c.
Qed.

Lemma sublist_In {A : Type} (l k : list A) (x : A) :
  sublist l k -> In x l -> In x k.
Proof.
  induction 1 as [|y l k _ IH|y l k _ IH]; simpl; intros Hin; auto.
  destruct Hin as [->|Hin]; auto.
Qed.

Lemma sublist_NoDup {A : Type} (l k : list A) :
  sublist l k -> NoDup k -> NoDup l.
Proof.
  induction 1 as [|y l k Hs IH|y l k Hs IH]; intros Hk.
  - constructor.
  - apply List.NoDup_cons_iff in Hk as [Hy Hk].
    apply List.NoDup_cons_iff. split; [|now apply IH].
    intros Hin. apply Hy. now apply (sublist_In l k).
  - apply List.NoDup_cons_iff in Hk as [_ Hk]. now apply IH.
Qed.

Lemma resolve_sublist (target : nat) (X : gset string) (cmc_data : list coin_data) :
  sublist (resolve target X cmc_data) (map binance_symbol_of cmc_data).
Proof.
  unfold resolve.
  destruct (match_loop_prefix target X cmc_data []) as [n ->].
  cbn [app]. transitivity (matches X cmc_data).
  - apply sublist_take.
  - apply filter_sublist.
Qed.

Definition example_set : gset string := {[ "BTCUSDT"; "ETHUSDT"; "SOLUSDT" ]}.

Definition example_listing : list coin_data :=
  [ {[ "symbol" := "btc" ]}; {[ "symbol" := "XYZ" ]};
    {[ "symbol" := "ETH" ]}; {[ "symbol" := "SOL" ]} ].

(** C4. With a target of at least one, the universe is a subsequence of
    the candidates' venue identifiers in rank order, namely the first
    [target] matches; its length is [min target (number of matches)]; the
    loop examines no candidate beyond the match that completes the target;
    and with no match the universe is empty. *)
Theorem resolve_first_matches (target : nat) (X : gset string)
        (cmc_data : list coin_data) :
  (1 <= target)%nat ->
  sublist (resolve target X cmc_data) (map binance_symbol_of cmc_data)
  /\ resolve target X cmc_data = firstn target (matches X cmc_data)
  /\ List.length (resolve target X cmc_data)
     = Nat.min target (List.length (matches X cmc_data))
  /\ (exists examined,
        cmc_data = examined ++ unexamined target X cmc_data
        /\ resolve target X cmc_data = matches X examined
        /\ (List.length (resolve target X cmc_data) = target ->
            exists earlier coin,
              examined = earlier ++ [coin]
              /\ bool_decide (binance_symbol_of coin ∈ X) = true))
  /\ (matches X cmc_data = [] -> resolve target X cmc_data = []).
Proof.
  intros Htarget.
  assert (Hfst : resolve target X cmc_data = firstn target (matches X cmc_data)).
  { unfold resolve. rewrite match_loop_fst by (simpl; lia).
    cbn [app List.length]. now rewrite Nat.sub_0_r. }
  split; [apply resolve_sublist|].
  split; [exact Hfst|].
  split; [rewrite Hfst; apply length_firstn|].
  split.
  - destruct (match_loop_stop target X cmc_data []) as (ex & H1 & H2 & H3);
      [simpl; lia|].
    exists ex. unfold resolve, unexamined. auto.
  - intros Hnone. rewrite Hfst, Hnone. apply firstn_nil.
Qed.

Lemma resolve_first_matches_witness :
  resolve 2 example_set example_listing = ["BTCUSDT"; "ETHUSDT"]
  /\ resolve 2 example_set example_listing
     = firstn 2 (matches example_set example_listing).
Proof.
  split; [vm_compute; reflexivity|].
  apply (resolve_first_matches 2 example_set example_listing). lia.
Defined.

(** A target of at least one matters: with a target of 0 the length test
    fails for good once a first match is appended (the prompt kept in the
    source admits 1 to 400 only, and both scripts fix the target). *)
Lemma resolve_target_zero :
  resolve 0 example_set example_listing = ["BTCUSDT"; "ETHUSDT"; "SOLUSDT"].
Proof. vm_compute. reflexivity. Qed.

(** C9, as stated, fails: the loop has no de-duplication, so a listing
    that carries the same ticker twice yields a universe that repeats it. *)
Lemma duplicate_ticker_repeats :
  resolve 100 {[ "BTCUSDT" ]} [ {[ "symbol" := "BTC" ]}; {[ "symbol" := "BTC" ]} ]
  = ["BTCUSDT"; "BTCUSDT"]
  /\ ~ NoDup (resolve 100 {[ "BTCUSDT" ]}
                [ {[ "symbol" := "BTC" ]}; {[ "symbol" := "BTC" ]} ]).
Proof.
  assert (H : resolve 100 {[ "BTCUSDT" ]}
                [ {[ "symbol" := "BTC" ]}; {[ "symbol" := "BTC" ]} ]
              = ["BTCUSDT"; "BTCUSDT"]) by (vm_compute; reflexivity).
  split; [exact H|]. rewrite H. intros Hnd.
  apply List.NoDup_cons_iff in Hnd as [Hnotin _]. apply Hnotin. now left.
Qed.

Lemma matches_app (X : gset string) (l k : list coin_data) :
  matches X (l ++ k) = matches X l ++ matches X k.
Proof.
  unfold matches. now rewrite map_app, filter_app.
Qed.

Lemma matches_cons (X : gset string) (c : coin_data) (l : list coin_data) :
  matches X (c :: l)
  = if bool_decide (binance_symbol_of c ∈ X)
    then binance_symbol_of c :: matches X l else matches X l.
Proof. reflexivity. Qed.

Lemma resolve_sublist_matches (target : nat) (X : gset string)
      (cmc_data : list coin_data) :
  sublist (resolve target X cmc_data) (matches X cmc_data).
Proof.
  unfold resolve.
  destruct (match_loop_prefix target X cmc_data []) as [n ->].
  cbn [app]. apply sublist_take.
Qed.

(** A match comes from a candidate. *)
Lemma matches_In_split (X : gset string) (l : list coin_data) (s : string) :
  In s (matches X l) ->
  exists mid c post, l = mid ++ c :: post /\ binance_symbol_of c = s /\ s ∈ X.
Proof.
  unfold matches. rewrite filter_In, in_map_iff.
  intros [(c & Hc & Hin) Hs]. apply bool_decide_eq_true in Hs.
  apply in_split in Hin as (mid & post & ->). now exists mid, c, post.
Qed.

(** A repeated match comes from two candidates. *)
Lemma matches_dup_split (X : gset string) (l : list coin_data) :
  ~ NoDup (matches X l) ->
  exists pre c1 mid c2 post,
    l = pre ++ c1 :: mid ++ c2 :: post
    /\ binance_symbol_of c1 = binance_symbol_of c2
    /\ binance_symbol_of c1 ∈ X.
Proof.
  induction l as [|c l IH]; intros Hdup.
  - exfalso. apply Hdup. constructor.
  - rewrite matches_cons in Hdup.
    destruct (bool_decide (binance_symbol_of c ∈ X)) eqn:Hmem.
    + destruct (in_dec string_dec (binance_symbol_of c) (matches X l))
        as [Hin|Hnotin].
      * apply matches_In_split in Hin as (mid & c2 & post & -> & Hc2 & HX).
        exists [], c, mid, c2, post. now repeat split.
      * destruct IH as (pre & c1 & mid & c2 & post & -> & Heq & HX).
        { intros Hnd. apply Hdup. now apply List.NoDup_cons. }
        now exists (c :: pre), c1, mid, c2, post.
    + destruct (IH Hdup) as (pre & c1 & mid & c2 & post & -> & Heq & HX).
      now exists (c :: pre), c1, mid, c2, post.
Qed.

(** C9, amended. When the tradable identifiers of the candidates are
    pairwise distinct, each symbol occurs at most once in the universe,
    whatever the target.  The loop removes no duplicate: with a target of
    at least one, the universe repeats a symbol exactly when two
    candidates with the same tradable identifier are both examined, that
    is when the matches up to and including the second one number at most
    the target. *)
Theorem resolve_NoDup (target : nat) (X : gset string) (cmc_data : list coin_data) :
  (NoDup (matches X cmc_data) -> NoDup (resolve target X cmc_data))
  /\ ((1 <= target)%nat ->
      (~ NoDup (resolve target X cmc_data) <->
       exists pre c1 mid c2 post,
         cmc_data = pre ++ c1 :: mid ++ c2 :: post
         /\ binance_symbol_of c1 = binance_symbol_of c2
         /\ binance_symbol_of c1 ∈ X
         /\ (List.length (matches X (pre ++ c1 :: mid ++ [c2])) <= target)%nat)).
Proof.
  split; [apply sublist_NoDup, resolve_sublist_matches|].
  intros Htarget.
  assert (Hfst : resolve target X cmc_data = firstn target (matches X cmc_data)).
  { unfold resolve. rewrite match_loop_fst by (simpl; lia).
    cbn [app List.length]. now rewrite Nat.sub_0_r. }
  split.
  - intros Hdup.
    destruct (match_loop_stop target X cmc_data []) as (ex & H1 & H2 & _);
      [simpl; lia|].
    cbn [app] in H2. fold (resolve target X cmc_data) in H2.
    rewrite H2 in Hdup.
    apply matches_dup_split in Hdup
      as (pre & c1 & mid & c2 & post & Hex & Heq & HX).
    exists pre, c1, mid, c2, (post ++ snd (match_loop target X cmc_data [])).
    split; [|split; [exact Heq|split; [exact HX|]]].
    + rewrite H1 at 1. rewrite Hex. rewrite <- !app_assoc. cbn [app].
      rewrite <- !app_assoc. reflexivity.
    + assert (Hlen : (List.length (resolve target X cmc_data) <= target)%nat).
      { rewrite Hfst. apply firstn_le_length. }
      rewrite H2, Hex in Hlen.
      replace (pre ++ c1 :: mid ++ c2 :: post)
        with ((pre ++ c1 :: mid ++ [c2]) ++ post) in Hlen
        by (rewrite <- !app_assoc; cbn [app]; rewrite <- !app_assoc; reflexivity).
      rewrite matches_app, length_app in Hlen. lia.
  - intros (pre & c1 & mid & c2 & post & Hcmc & Heq & HX & Hlen) Hnd.
    rewrite Hfst, Hcmc in Hnd.
    replace (pre ++ c1 :: mid ++ c2 :: post)
      with ((pre ++ c1 :: mid ++ [c2]) ++ post) in Hnd
      by (rewrite <- !app_assoc; cbn [app]; rewrite <- !app_assoc; reflexivity).
    rewrite matches_app, firstn_app in Hnd.
    rewrite firstn_all2 in Hnd by exact Hlen.
    apply NoDup_app_remove_r in Hnd.
    rewrite matches_app, matches_cons, matches_app, matches_cons in Hnd.
    rewrite <- Heq in Hnd.
    rewrite (bool_decide_eq_true_2 _ HX) in Hnd.
    apply NoDup_app_remove_l in Hnd.
    apply List.NoDup_cons_iff in Hnd as [Hnotin _].
    apply Hnotin, in_or_app. right. now left.
Qed.

Lemma resolve_NoDup_witness :
  NoDup (matches example_set example_listing)
  /\ NoDup (resolve 2 example_set example_listing)
  /\ ~ NoDup (resolve 2 {[ "BTCUSDT" ]}
                [ {[ "symbol" := "BTC" ]}; {[ "symbol" := "BTC" ]} ]).
Proof.
  assert (H : NoDup (matches example_set example_listing)).
  { vm_compute. repeat constructor; simpl; intuition discriminate. }
  split; [exact H|].
  split; [exact (proj1 (resolve_NoDup 2 example_set example_listing) H)|].
  apply (proj2 (resolve_NoDup 2 {[ "BTCUSDT" ]}
                  [ {[ "symbol" := "BTC" ]}; {[ "symbol" := "BTC" ]} ]));
    [lia|].
  exists [], {[ "symbol" := "BTC" ]}, [], {[ "symbol" := "BTC" ]}, [].
  split; [reflexivity|]. split; [reflexivity|].
  split; [now apply elem_of_singleton|].
  vm_compute. lia.
Defined.

End Universe.

(** ** Flow metrics and setup tables
       ([GIT_BinanceOrderBookAnalyzer.py], [GITOrderFlowImbalanceAnalyzer.py]) *)

Module Flow.
Import PyFloat.

Open Scope float_scope.

(** The order-book snapshot: [response.get('bids', [])] and
    [response.get('asks', [])], each level a [[price, quantity]] pair. *)
Record depth : Type := Depth {
  bids : list (raw * raw);
  asks : list (raw * raw)
}.

(** One aggregated trade: ['p'], ['q'] and the buyer-is-maker flag ['m']. *)
Record trade : Type := Trade {
  trade_p : raw;
  trade_q : raw;
  trade_m : bool
}.

(** What [api_get] returns for one symbol's two requests; [None] is the
    answer of a failed request. *)
Record evidence : Type := Evidence {
  ev_depth : option depth;
  ev_trades : option (list trade)
}.

(** [float(p) * float(q)]. *)
Definition notional (p q : raw) : outcome float :=
  x ← to_float p; y ← to_float q; Ok (x * y).

(** [sum(float(p) * float(q) for p, q in levels)]. *)
Definition sum_notional (levels : list (raw * raw)) : outcome float :=
  values ← mapM (fun level => notional (fst level) (snd level)) levels;
  Ok (fold_left add values 0).

Definition calculate_passive_order_value (response : option depth)
  : outcome (float * float) :=
  match response with
  | None => Ok (0, 0)
  | Some response =>
      total_bids_value ← sum_notional (bids response);
      total_asks_value ← sum_notional (asks response);
      Ok (total_bids_value, total_asks_value)
  end.

(** The loop over the trades, with the two running totals. *)
Fixpoint trade_loop (response : list trade)
         (total_taker_buy_value total_taker_sell_value : float)
  : outcome (float * float) :=
  match response with
  | [] => Ok (total_taker_buy_value, total_taker_sell_value)
  | trade :: rest =>
      notional_value ← notional (trade_p trade) (trade_q trade);
      if negb (trade_m trade)
      then trade_loop rest (total_taker_buy_value + notional_value)
                      total_taker_sell_value
      else trade_loop rest total_taker_buy_value
                      (total_taker_sell_value + notional_value)
  end.

Definition calculate_active_trade_value (response : option (list trade))
  : outcome (float * float) :=
  match response with
  | None => Ok (0, 0)
  | Some response => trade_loop response 0 0
  end.

(** [n / d if d > 0 else float('inf')]: the expression of both
    buy/sell ratios and of both ratios of ratios. *)
Definition bs_ratio (n d : float) : outcome float :=
  if gt d 0 then truediv n d else Ok inf.

Record metrics : Type := Metrics {
  coin : string;
  limitBuy : Z;
  limitSell : Z;
  marketBuy : Z;
  marketSell : Z;
  limit_bs_ratio : float;
  market_bs_ratio : float
}.

Definition fetch_and_process_symbol (symbol : string) (ev : evidence)
  : outcome metrics :=
  limit ← calculate_passive_order_value (ev_depth ev);
  market ← calculate_active_trade_value (ev_trades ev);
  let limit_buy_value := fst limit in
  let limit_sell_value := snd limit in
  let market_buy_value := fst market in
  let market_sell_value := snd market in
  limit_bs_ratio ← bs_ratio limit_buy_value limit_sell_value;
  market_bs_ratio ← bs_ratio market_buy_value market_sell_value;
  limitBuy ← round_int limit_buy_value;
  limitSell ← round_int limit_sell_value;
  marketBuy ← round_int market_buy_value;
  marketSell ← round_int market_sell_value;
  Ok (Metrics symbol limitBuy limitSell marketBuy marketSell
              limit_bs_ratio market_bs_ratio).

(** The [as_completed] loop: the futures are taken in completion order;
    a result is appended ([if result:] holds for every dictionary a task
    returns), and a task that raised is logged and passed over. *)
Definition collect (feed : string -> evidence) (completion : list string)
  : list metrics :=
  fold_left
    (fun current_run_data symbol =>
       match fetch_and_process_symbol symbol (feed symbol) with
       | Ok result => current_run_data ++ [result]
       | Raise _ => current_run_data
       end)
    completion [].

(** [coins_to_analyze.index(s)]. *)
Fixpoint index (coins_to_analyze : list string) (s : string) : outcome nat :=
  match coins_to_analyze with
  | [] => Raise ValueError
  | c :: rest =>
      if String.eqb c s then Ok 0%nat
      else i ← index rest s; Ok (S i)
  end.

(** [data.sort(key=lambda x: coins_to_analyze.index(x['coin']))]: the keys
    are computed first, then the list is sorted on them. *)
Definition sort_by_rank (coins_to_analyze : list string) (data : list metrics)
  : outcome (list metrics) :=
  keyed ← mapM (fun x => i ← index coins_to_analyze (coin x); Ok (i, x)) data;
  Ok (map snd (PySort.sort Nat.ltb fst false keyed)).

(** A record once the first loop of [display_trade_setups] has added the
    two ratios of ratios to it. *)
Record setup : Type := Setup {
  base : metrics;
  limit_market_ratio : float;
  market_limit_ratio : float
}.

Definition enrich (c : metrics) : outcome setup :=
  limit_market_ratio ← bs_ratio (limit_bs_ratio c) (market_bs_ratio c);
  market_limit_ratio ← bs_ratio (market_bs_ratio c) (limit_bs_ratio c);
  Ok (Setup c limit_market_ratio market_limit_ratio).

Definition is_short (c : setup) : bool :=
  gt (limit_bs_ratio (base c)) 1 && lt (market_bs_ratio (base c)) 1.

Definition is_long (c : setup) : bool :=
  lt (limit_bs_ratio (base c)) 1 && gt (market_bs_ratio (base c)) 1.

(** The rows of the two tables, in the order printed. *)
Definition display_trade_setups (all_coin_data : list metrics)
  : outcome (list setup * list setup) :=
  all_coin_data ← mapM enrich all_coin_data;
  let potential_shorts := filter is_short all_coin_data in
  let potential_shorts :=
    PySort.sort ltb limit_market_ratio true potential_shorts in
  let potential_longs := filter is_long all_coin_data in
  let potential_longs :=
    PySort.sort ltb market_limit_ratio true potential_longs in
  Ok (potential_shorts, potential_longs).

(** One analysis run of [main] from the universe on: collect, re-sort
    into rank order, build the tables. *)
Definition run (coins_to_analyze : list string) (feed : string -> evidence)
           (completion : list string) : outcome (list setup * list setup) :=
  let current_run_data := collect feed completion in
  current_run_data ← sort_by_rank coins_to_analyze current_run_data;
  display_trade_setups current_run_data.

(** *** The ratio expression *)

Lemma bs_ratio_Ok (n d : float) :
  bs_ratio n d = Ok (if gt d 0 then n / d else inf).
Proof.
  unfold bs_ratio, gt. destruct (0 <? d) eqn:Hd; [|reflexivity].
  now apply truediv_pos.
Qed.

(** C3. The ratio expression returns the quotient [n / d] when [d > 0]
    and [+inf] when [d == 0], whatever the numerator, zero included; in
    the second case the result is not a NaN and nothing is raised; and a
    finite numerator never gives a NaN, whatever the denominator. *)
Theorem bs_ratio_by_denominator (n d : float) :
  ((0 <? d) = true -> bs_ratio n d = Ok (n / d))
  /\ ((d =? 0) = true -> bs_ratio n d = Ok inf /\ is_nan inf = false)
  /\ (is_finite n = true ->
      exists r, bs_ratio n d = Ok r /\ is_nan r = false).
Proof.
  rewrite bs_ratio_Ok. unfold gt. split; [|split].
  - now intros ->.
  - intros Hzero. apply eqb_not_ltb in Hzero.
    destruct Hzero as [_ ->]. now split.
  - intros Hn. destruct (0 <? d) eqn:Hd.
    + exists (n / d). split; [reflexivity|now apply div_not_nan].
    + now exists inf.
Qed.

Lemma bs_ratio_by_denominator_witness :
  bs_ratio 0 0 = Ok inf /\ bs_ratio 1000 500 = Ok 2.
Proof.
  split.
  - apply (proj1 (proj2 (bs_ratio_by_denominator 0 0))). reflexivity.
  - apply (proj1 (bs_ratio_by_denominator 1000 500)). reflexivity.
Defined.

(** *** The tables *)

(** The record [enrich] makes of [c]. *)
Definition enriched (c : metrics) : setup :=
  Setup c
        (if gt (market_bs_ratio c) 0
         then limit_bs_ratio c / market_bs_ratio c else inf)
        (if gt (limit_bs_ratio c) 0
         then market_bs_ratio c / limit_bs_ratio c else inf).

Lemma enrich_Ok (c : metrics) : enrich c = Ok (enriched c).
Proof. unfold enrich. now rewrite !bs_ratio_Ok. Qed.

Lemma display_trade_setups_Ok (all_coin_data : list metrics) :
  mapM enrich all_coin_data = Ok (map enriched all_coin_data)
  /\ display_trade_setups all_coin_data
     = Ok (PySort.sort ltb limit_market_ratio true
             (filter is_short (map enriched all_coin_data)),
           PySort.sort ltb market_limit_ratio true
             (filter is_long (map enriched all_coin_data))).
Proof.
  assert (H : mapM enrich all_coin_data = Ok (map enriched all_coin_data)).
  { apply mapM_Ok. intros c _. apply enrich_Ok. }
  split; [exact H|]. unfold display_trade_setups. now rewrite H.
Qed.

Lemma short_long_disjoint (c : setup) : is_short c && is_long c = false.
Proof.
  unfold is_short, is_long, gt, lt.
  destruct (1 <? limit_bs_ratio (base c)) eqn:H; [|reflexivity].
  apply ltb_asym in H. rewrite H. simpl. apply andb_false_r.
Qed.

Lemma boundary_neither (c : setup) :
  (limit_bs_ratio (base c) =? 1) = true \/ (market_bs_ratio (base c) =? 1) = true ->
  is_short c = false /\ is_long c = false.
Proof.
  unfold is_short, is_long, gt, lt.
  intros [H|H]; apply eqb_not_ltb in H; destruct H as [-> ->];
    rewrite ?andb_false_r; auto.
Qed.

(** C6. In every run of the tables the two filters exclude each other:
    no record passes both, no row is in both tables, and a record whose
    limit ratio or market ratio equals 1 passes neither filter and is in
    neither table. *)
Theorem short_long_exclusive (all_coin_data : list metrics) :
  exists potential_shorts potential_longs,
    display_trade_setups all_coin_data = Ok (potential_shorts, potential_longs)
    /\ (forall c, is_short c && is_long c = false)
    /\ (forall c, In c potential_shorts <->
                  In c (map enriched all_coin_data) /\ is_short c = true)
    /\ (forall c, In c potential_longs <->
                  In c (map enriched all_coin_data) /\ is_long c = true)
    /\ (forall c, ~ (In c potential_shorts /\ In c potential_longs))
    /\ (forall c,
          (limit_bs_ratio (base c) =? 1) = true
          \/ (market_bs_ratio (base c) =? 1) = true ->
          is_short c = false /\ is_long c = false
          /\ ~ In c potential_shorts /\ ~ In c potential_longs).
Proof.
  destruct (display_trade_setups_Ok all_coin_data) as [_ Hd].
  eexists _, _. split; [exact Hd|].
  assert (Hs : forall c,
             In c (PySort.sort ltb limit_market_ratio true
                     (filter is_short (map enriched all_coin_data)))
             <-> In c (map enriched all_coin_data) /\ is_short c = true).
  { intros c. now rewrite PySort.sort_In, filter_In. }
  assert (Hl : forall c,
             In c (PySort.sort ltb market_limit_ratio true
                     (filter is_long (map enriched all_coin_data)))
             <-> In c (map enriched all_coin_data) /\ is_long c = true).
  { intros c. now rewrite PySort.sort_In, filter_In. }
  split; [exact short_long_disjoint|].
  split; [exact Hs|]. split; [exact Hl|]. split.
  - intros c [H1 H2]. apply Hs in H1 as [_ H1]. apply Hl in H2 as [_ H2].
    pose proof (short_long_disjoint c) as H. rewrite H1, H2 in H. discriminate.
  - intros c Hb. destruct (boundary_neither c Hb) as [H1 H2].
    repeat split; try assumption.
    + intros H. apply Hs in H as [_ H]. congruence.
    + intros H. apply Hl in H as [_ H]. congruence.
Qed.

(** The keys the two sorts compare are never a NaN, so that [<] orders
    them totally. *)
Lemma table_keys_not_nan (c : metrics) :
  (is_short (enriched c) = true ->
   is_nan (limit_market_ratio (enriched c)) = false)
  /\ (is_long (enriched c) = true ->
      is_nan (market_limit_ratio (enriched c)) = false).
Proof.
  unfold is_short, is_long, enriched, gt, lt. cbn [base limit_market_ratio market_limit_ratio].
  split; intros H; apply andb_true_iff in H as [H1 H2].
  - destruct (0 <? market_bs_ratio c) eqn:H0; [|reflexivity].
    apply div_fraction_not_nan; try assumption.
    now apply ltb_not_nan in H1.
  - destruct (0 <? limit_bs_ratio c) eqn:H0; [|reflexivity].
    apply div_fraction_not_nan; try assumption.
    now apply ltb_not_nan in H2.
Qed.

(** C7. Both descending sorts are stable: in each table the rows sharing
    a sort key are in the order they had in the input list. *)
Theorem setup_sorts_stable (all_coin_data : list metrics) :
  exists potential_shorts potential_longs,
    display_trade_setups all_coin_data = Ok (potential_shorts, potential_longs)
    /\ (forall k,
          filter (fun c => limit_market_ratio c =? k) potential_shorts
          = filter (fun c => limit_market_ratio c =? k)
                   (filter is_short (map enriched all_coin_data)))
    /\ (forall k,
          filter (fun c => market_limit_ratio c =? k) potential_longs
          = filter (fun c => market_limit_ratio c =? k)
                   (filter is_long (map enriched all_coin_data))).
Proof.
  destruct (display_trade_setups_Ok all_coin_data) as [_ Hd].
  eexists _, _. split; [exact Hd|].
  split; intros k; apply PySort.sort_stable;
    try exact ltb_trans; try exact ltb_asym.
  - intros a b. apply same_key_not_ltb.
  - intros a b c. apply same_key_ltb_l.
  - intros a b. apply same_key_not_ltb.
  - intros a b c. apply same_key_ltb_l.
Qed.

(** *** Collection and the re-sort into rank order *)

(** What one completed future adds to [current_run_data]. *)
Definition collected (feed : string -> evidence) (symbol : string) : list metrics :=
  match fetch_and_process_symbol symbol (feed symbol) with
  | Ok result => [result]
  | Raise _ => []
  end.

Lemma collect_flat_map (feed : string -> evidence) (completion : list string) :
  collect feed completion = flat_map (collected feed) completion.
Proof.
  unfold collect.
  assert (H : forall acc,
             fold_left
               (fun current_run_data symbol =>
                  match fetch_and_process_symbol symbol (feed symbol) with
                  | Ok result => current_run_data ++ [result]
                  | Raise _ => current_run_data
                  end) completion acc
             = acc ++ flat_map (collected feed) completion).
  { induction completion as [|s rest IH]; intros acc; simpl.
    - now rewrite app_nil_r.
    - rewrite IH. unfold collected.
      destruct (fetch_and_process_symbol s (feed s)); simpl.
      + now rewrite <- app_assoc.
      + reflexivity. }
  apply (H []).
Qed.

Lemma fetch_coin (symbol : string) (ev : evidence) (r : metrics) :
  fetch_and_process_symbol symbol ev = Ok r -> coin r = symbol.
Proof.
  unfold fetch_and_process_symbol.
  destruct (calculate_passive_order_value (ev_depth ev)) as [limit|]; simpl;
    [|discriminate].
  destruct (calculate_active_trade_value (ev_trades ev)) as [market|]; simpl;
    [|discriminate].
  rewrite !bs_ratio_Ok. simpl.
  destruct (round_int (fst limit)); simpl; [|discriminate].
  destruct (round_int (snd limit)); simpl; [|discriminate].
  destruct (round_int (fst market)); simpl; [|discriminate].
  destruct (round_int (snd market)); simpl; [|discriminate].
  intros H. injection H as <-. reflexivity.
Qed.

Lemma collect_In (feed : string -> evidence) (completion : list string) (r : metrics) :
  In r (collect feed completion) <->
  In (coin r) completion /\ fetch_and_process_symbol (coin r) (feed (coin r)) = Ok r.
Proof.
  rewrite collect_flat_map, in_flat_map. unfold collected. split.
  - intros (s & Hs & Hr).
    destruct (fetch_and_process_symbol s (feed s)) as [r'|] eqn:Hf;
      simpl in Hr; [|contradiction].
    destruct Hr as [->|[]]. rewrite (fetch_coin _ _ _ Hf). now split.
  - intros [Hin Hf]. exists (coin r). split; [exact Hin|].
    rewrite Hf. now left.
Qed.

(** The rank [index] finds for a listed symbol. *)
Definition rank (coins_to_analyze : list string) (s : string) : nat :=
  match index coins_to_analyze s with
  | Ok i => i
  | Raise _ => 0%nat
  end.

Lemma index_In (coins : list string) (s : string) :
  In s coins -> index coins s = Ok (rank coins s).
Proof.
  unfold rank. induction coins as [|c rest IH]; simpl; [contradiction|].
  intros Hin. destruct (String.eqb_spec c s) as [Heq|Hne]; [reflexivity|].
  destruct Hin as [Hin|Hin]; [contradiction|].
  rewrite (IH Hin). reflexivity.
Qed.

Lemma index_inj (coins : list string) (s t : string) (i : nat) :
  index coins s = Ok i -> index coins t = Ok i -> s = t.
Proof.
  revert i. induction coins as [|c rest IH]; simpl; intros i; [discriminate|].
  destruct (String.eqb_spec c s) as [Hs|Hs], (String.eqb_spec c t) as [Ht|Ht].
  - congruence.
  - intros H. injection H as <-.
    destruct (index rest t); simpl; discriminate.
  - destruct (index rest s); simpl; [|discriminate].
    intros H1 H2. congruence.
  - destruct (index rest s) as [a|]; simpl; [|discriminate].
    destruct (index rest t) as [b|]; simpl; [|discriminate].
    intros H1 H2. apply (IH a); f_equal; congruence.
Qed.

Lemma rank_inj (coins : list string) (s t : string) :
  In s coins -> In t coins -> rank coins s = rank coins t -> s = t.
Proof.
  intros Hs Ht Heq. apply (index_inj coins s t (rank coins s)).
  - now apply index_In.
  - rewrite Heq. now apply index_In.
Qed.

(** The list the sort works on: each record with its rank. *)
Definition keyed (coins_to_analyze : list string) (data : list metrics)
  : list (nat * metrics) :=
  map (fun x => (rank coins_to_analyze (coin x), x)) data.

Lemma sort_by_rank_Ok (coins : list string) (data : list metrics) :
  (forall x, In x data -> In (coin x) coins) ->
  sort_by_rank coins data
  = Ok (map snd (PySort.sort Nat.ltb fst false (keyed coins data))).
Proof.
  intros Hin. unfold sort_by_rank, keyed.
  rewrite (mapM_Ok _ (fun x => (rank coins (coin x), x))); [reflexivity|].
  intros x Hx. now rewrite (index_In _ _ (Hin x Hx)).
Qed.

Lemma ltb_nat_trans (a b c : nat) :
  (a <? b)%nat = true -> (b <? c)%nat = true -> (a <? c)%nat = true.
Proof. rewrite !Nat.ltb_lt. lia. Qed.

Lemma ltb_nat_asym (a b : nat) : (a <? b)%nat = true -> (b <? a)%nat = false.
Proof. rewrite Nat.ltb_lt, Nat.ltb_ge. lia. Qed.

(** Results collected in two completion orders of the same tasks sort to
    the same list. *)
Lemma sorted_keyed_eq (coins : list string) (feed : string -> evidence)
      (c1 c2 : list string) :
  Permutation c1 c2 -> (forall s, In s c1 -> In s coins) ->
  PySort.sort Nat.ltb fst false (keyed coins (collect feed c1))
  = PySort.sort Nat.ltb fst false (keyed coins (collect feed c2)).
Proof.
  intros Hperm Hin.
  apply (PySort.no_inversion_unique _ _ Nat.ltb fst).
  - intros [i x] [j y] Hx Hy Hij Hji. simpl in Hij, Hji.
    apply PySort.sort_In in Hx, Hy. unfold keyed in Hx, Hy.
    apply in_map_iff in Hx as (x' & Ex & Hx).
    apply in_map_iff in Hy as (y' & Ey & Hy).
    injection Ex as <- <-. injection Ey as <- <-.
    apply collect_In in Hx as [Hxc Hxf]. apply collect_In in Hy as [Hyc Hyf].
    apply Nat.ltb_ge in Hij, Hji.
    assert (Hrank : rank coins (coin x') = rank coins (coin y')) by lia.
    apply rank_inj in Hrank; [|now apply Hin|now apply Hin].
    rewrite Hrank in Hxf. rewrite Hxf in Hyf. congruence.
  - rewrite !PySort.sort_perm. unfold keyed. apply Permutation_map.
    rewrite !collect_flat_map. now apply Permutation_flat_map.
  - apply PySort.sort_asc_no_inversion; [exact ltb_nat_trans|exact ltb_nat_asym].
  - apply PySort.sort_asc_no_inversion; [exact ltb_nat_trans|exact ltb_nat_asym].
Qed.

Lemma keyed_sorted_ranks (coins : list string) (l : list (nat * metrics)) :
  Forall (fun p => fst p = rank coins (coin (snd p))) l ->
  PySort.no_inversion Nat.ltb fst l ->
  PySort.no_inversion Nat.ltb (fun x => rank coins (coin x)) (map snd l).
Proof.
  induction l as [|[i x] l IH]; simpl; intros Hk Hs; [exact I|].
  apply Forall_cons_iff in Hk as [Hi Hk]. destruct Hs as [Hx Hs].
  simpl in Hi. split; [|now apply IH].
  rewrite Forall_forall in *. intros y Hy.
  apply in_map_iff in Hy as ([j y'] & <- & Hy).
  pose proof (Hk _ Hy) as Hj. pose proof (Hx _ Hy) as Hlt.
  simpl in Hj, Hlt |- *. now rewrite <- Hi, <- Hj.
Qed.

(** C5. For a fixed feed, every completion order of the universe's tasks
    gives the same re-sorted collection and the same two tables as the
    submission order does, the run returns, and the re-sorted collection
    holds exactly the records collected, each as often as collected, in
    rank order (no record precedes one of smaller rank). *)
Theorem ranked_output_independent_of_completion
        (coins_to_analyze : list string) (feed : string -> evidence)
        (completion : list string) :
  Permutation completion coins_to_analyze ->
  sort_by_rank coins_to_analyze (collect feed completion)
  = sort_by_rank coins_to_analyze (collect feed coins_to_analyze)
  /\ run coins_to_analyze feed completion
     = run coins_to_analyze feed coins_to_analyze
  /\ (exists current_run_data,
        sort_by_rank coins_to_analyze (collect feed completion)
        = Ok current_run_data
        /\ Permutation current_run_data (collect feed completion)
        /\ PySort.no_inversion Nat.ltb
             (fun x => rank coins_to_analyze (coin x)) current_run_data)
  /\ (exists potential_shorts potential_longs,
        run coins_to_analyze feed completion
        = Ok (potential_shorts, potential_longs)).
Proof.
  intros Hperm.
  assert (Hin : forall s, In s completion -> In s coins_to_analyze).
  { intros s. apply Permutation_in, Hperm. }
  assert (Hdata : forall order,
             (forall s, In s order -> In s coins_to_analyze) ->
             forall x, In x (collect feed order) -> In (coin x) coins_to_analyze).
  { intros order Ho x Hx. apply collect_In in Hx as [Hx _]. now apply Ho. }
  assert (Hsort : sort_by_rank coins_to_analyze (collect feed completion)
                  = sort_by_rank coins_to_analyze (collect feed coins_to_analyze)).
  { rewrite !sort_by_rank_Ok by (apply Hdata; auto).
    now rewrite (sorted_keyed_eq coins_to_analyze feed _ _ Hperm Hin). }
  split; [exact Hsort|].
  split; [unfold run; now rewrite Hsort|].
  split.
  - eexists. split; [apply sort_by_rank_Ok, Hdata, Hin|]. split.
    { rewrite PySort.sort_perm. unfold keyed. rewrite map_map. cbn [snd].
      now rewrite map_id. }
    apply keyed_sorted_ranks.
    + rewrite Forall_forall. intros [i x] Hx.
      apply PySort.sort_In in Hx. unfold keyed in Hx.
      apply in_map_iff in Hx as (x' & Ex & _). now injection Ex as <- <-.
    + apply PySort.sort_asc_no_inversion;
        [exact ltb_nat_trans|exact ltb_nat_asym].
  - unfold run. rewrite sort_by_rank_Ok by (apply Hdata, Hin).
    cbn [mbind outcome_bind].
    destruct (display_trade_setups_Ok
                (map snd (PySort.sort Nat.ltb fst false
                            (keyed coins_to_analyze (collect feed completion)))))
      as [_ ->].
    eexists _, _. reflexivity.
Qed.

(** A depth book of one bid and one ask, and trades on both sides. *)
Definition example_evidence : evidence :=
  Evidence (Some (Depth [(Some 10, Some 100)] [(Some 5, Some 100)]))
           (Some [Trade (Some 10) (Some 10) false; Trade (Some 10) (Some 30) true]).

(** No order book (the request failed) and one aggressive sell. *)
Definition example_no_depth : evidence :=
  Evidence None (Some [Trade (Some 1) (Some 1) true]).

Definition example_feed (symbol : string) : evidence :=
  if String.eqb symbol "BTCUSDT" then example_evidence else example_no_depth.

Lemma ranked_output_independent_of_completion_witness :
  run ["BTCUSDT"; "ETHUSDT"]%string example_feed ["ETHUSDT"; "BTCUSDT"]%string
  = run ["BTCUSDT"; "ETHUSDT"]%string example_feed ["BTCUSDT"; "ETHUSDT"]%string.
Proof.
  apply (ranked_output_independent_of_completion
           ["BTCUSDT"; "ETHUSDT"]%string example_feed
           ["ETHUSDT"; "BTCUSDT"]%string).
  apply perm_swap.
Defined.

(** *** A failed request *)

Lemma round_int_zero : round_int 0 = Ok 0%Z.
Proof. reflexivity. Qed.

Lemma bs_ratio_zero_zero : bs_ratio 0 0 = Ok inf.
Proof. reflexivity. Qed.

Lemma filter_collected_other (feed : string -> evidence) (symbol s : string) :
  filter (fun r => negb (String.eqb (coin r) symbol)) (collected feed s)
  = if String.eqb s symbol then [] else collected feed s.
Proof.
  unfold collected.
  destruct (fetch_and_process_symbol s (feed s)) as [r|] eqn:Hf;
    [|now destruct (String.eqb s symbol)].
  cbn [filter]. rewrite (fetch_coin _ _ _ Hf).
  now destruct (String.eqb s symbol).
Qed.

(** C1, as stated, fails: a symbol whose order-book request failed is not
    left out of the ranked output.  Its limit totals count as zero, its
    limit ratio is [+inf], and with more aggressive selling than buying it
    is a row of the potential-shorts table. *)
Lemma failed_depth_fetch_is_ranked :
  ev_depth example_no_depth = None
  /\ run ["XRPUSDT"]%string (fun _ => example_no_depth) ["XRPUSDT"]%string
     = Ok ([Setup (Metrics "XRPUSDT" 0 0 0 1 inf 0) inf 0], []).
Proof.
  split; [reflexivity|vm_compute; reflexivity].
Qed.

(** C1, amended. A failed request is not marked: it counts as zero
    totals and a [+inf] ratio for that feed, and the task still returns a
    populated record (given the other feed is well formed).  After a
    failed depth request the record passes the potential-shorts filter
    exactly when its market ratio is below 1 and never the
    potential-longs filter; after a failed trades request it passes the
    potential-longs filter exactly when its limit ratio is below 1 and
    never the potential-shorts filter; with both requests failed it
    passes neither.  A returned record is collected and is a row of a
    table exactly when it passes that table's filter; a task that raises
    adds no record; the run returns its two tables whatever the feed; and
    what the feed holds for one symbol does not change the records
    collected for the others.  In the candle scan a failed request
    returns without alert, and the scan is that of the other symbols. *)
Theorem failed_fetch_zero_contribution (feed : string -> evidence) (symbol : string) :
  (ev_depth (feed symbol) = None ->
   forall buy sell mb ms,
     calculate_active_trade_value (ev_trades (feed symbol)) = Ok (buy, sell) ->
     round_int buy = Ok mb -> round_int sell = Ok ms ->
     exists ratio,
       bs_ratio buy sell = Ok ratio
       /\ fetch_and_process_symbol symbol (feed symbol)
          = Ok (Metrics symbol 0 0 mb ms inf ratio)
       /\ is_short (enriched (Metrics symbol 0 0 mb ms inf ratio)) = lt ratio 1
       /\ is_long (enriched (Metrics symbol 0 0 mb ms inf ratio)) = false)
  /\ (ev_trades (feed symbol) = None ->
      forall buy sell lb ls,
        calculate_passive_order_value (ev_depth (feed symbol)) = Ok (buy, sell) ->
        round_int buy = Ok lb -> round_int sell = Ok ls ->
        exists ratio,
          bs_ratio buy sell = Ok ratio
          /\ fetch_and_process_symbol symbol (feed symbol)
             = Ok (Metrics symbol lb ls 0 0 ratio inf)
          /\ is_short (enriched (Metrics symbol lb ls 0 0 ratio inf)) = false
          /\ is_long (enriched (Metrics symbol lb ls 0 0 ratio inf)) = lt ratio 1)
  /\ (ev_depth (feed symbol) = None -> ev_trades (feed symbol) = None ->
      fetch_and_process_symbol symbol (feed symbol)
      = Ok (Metrics symbol 0 0 0 0 inf inf)
      /\ is_short (enriched (Metrics symbol 0 0 0 0 inf inf)) = false
      /\ is_long (enriched (Metrics symbol 0 0 0 0 inf inf)) = false)
  /\ (forall coins_to_analyze completion r,
        fetch_and_process_symbol symbol (feed symbol) = Ok r ->
        In symbol completion ->
        (forall s, In s completion -> In s coins_to_analyze) ->
        In r (collect feed completion)
        /\ exists potential_shorts potential_longs,
            run coins_to_analyze feed completion
            = Ok (potential_shorts, potential_longs)
            /\ (In (enriched r) potential_shorts <-> is_short (enriched r) = true)
            /\ (In (enriched r) potential_longs <-> is_long (enriched r) = true))
  /\ (forall completion e,
        fetch_and_process_symbol symbol (feed symbol) = Raise e ->
        forall r, In r (collect feed completion) -> coin r <> symbol)
  /\ (forall coins_to_analyze completion,
        (forall s, In s completion -> In s coins_to_analyze) ->
        exists potential_shorts potential_longs,
          run coins_to_analyze feed completion
          = Ok (potential_shorts, potential_longs))
  /\ (forall feed' completion,
        (forall s, s <> symbol -> feed' s = feed s) ->
        filter (fun r => negb (String.eqb (coin r) symbol)) (collect feed' completion)
        = filter (fun r => negb (String.eqb (coin r) symbol)) (collect feed completion))
  /\ (forall (klines : string -> option (list Swing.kline)) before after,
        klines symbol = None ->
        Swing.check_conditions symbol (klines symbol) = Ok None
        /\ Swing.scan klines (before ++ symbol :: after)
           = Swing.scan klines (before ++ after)).
Proof.
  assert (Hrun : forall coins completion,
             (forall s, In s completion -> In s coins) ->
             run coins feed completion
             = Ok (PySort.sort ltb limit_market_ratio true
                     (filter is_short
                        (map enriched
                           (map snd (PySort.sort Nat.ltb fst false
                                       (keyed coins (collect feed completion)))))),
                   PySort.sort ltb market_limit_ratio true
                     (filter is_long
                        (map enriched
                           (map snd (PySort.sort Nat.ltb fst false
                                       (keyed coins (collect feed completion)))))))).
  { intros coins completion Hin. unfold run.
    rewrite sort_by_rank_Ok.
    - cbn [mbind outcome_bind]. apply display_trade_setups_Ok.
    - intros x Hx. apply collect_In in Hx as [Hx _]. now apply Hin. }
  assert (Hsorted : forall coins completion r,
             In r (collect feed completion) ->
             In (enriched r)
                (map enriched
                   (map snd (PySort.sort Nat.ltb fst false
                               (keyed coins (collect feed completion)))))).
  { intros coins completion r Hr. apply in_map.
    apply (Permutation_in (l := collect feed completion)); [|exact Hr].
    symmetry. rewrite PySort.sort_perm. unfold keyed. rewrite map_map.
    cbn [snd]. now rewrite map_id. }
  split; [|split; [|split; [|split; [|split; [|split; [|split]]]]]].
  - intros Hd buy sell mb ms Ht Hb Hs.
    exists (if gt sell 0 then buy / sell else inf).
    split; [apply bs_ratio_Ok|]. split; [|split; reflexivity].
    unfold fetch_and_process_symbol. rewrite Hd, Ht.
    cbn [calculate_passive_order_value mbind outcome_bind fst snd].
    rewrite bs_ratio_zero_zero, bs_ratio_Ok, round_int_zero, Hb, Hs.
    reflexivity.
  - intros Ht buy sell lb ls Hd Hb Hs.
    exists (if gt sell 0 then buy / sell else inf).
    split; [apply bs_ratio_Ok|]. split; [|split].
    + unfold fetch_and_process_symbol. rewrite Hd, Ht.
      cbn [calculate_active_trade_value mbind outcome_bind fst snd].
      rewrite bs_ratio_zero_zero, bs_ratio_Ok, round_int_zero, Hb, Hs.
      reflexivity.
    + unfold is_short. cbn [enriched base limit_bs_ratio market_bs_ratio].
      apply andb_false_r.
    + unfold is_long. cbn [enriched base limit_bs_ratio market_bs_ratio].
      apply andb_true_r.
  - intros Hd Ht. unfold fetch_and_process_symbol. rewrite Hd, Ht.
    repeat split.
  - intros coins completion r Hf Hin Hcoins.
    assert (Hr : In r (collect feed completion)).
    { apply collect_In. rewrite (fetch_coin _ _ _ Hf). now split. }
    split; [exact Hr|].
    eexists _, _. split; [apply Hrun, Hcoins|].
    rewrite !PySort.sort_In, !filter_In.
    pose proof (Hsorted coins completion r Hr) as Hrow. tauto.
  - intros completion e Hf r Hr Hcoin. apply collect_In in Hr as [_ Hr].
    rewrite Hcoin in Hr. congruence.
  - intros coins completion Hcoins. eexists _, _. apply Hrun, Hcoins.
  - intros feed' completion Hsame. rewrite !collect_flat_map.
    induction completion as [|s rest IH]; [reflexivity|].
    cbn [flat_map]. rewrite !filter_app, IH, !filter_collected_other.
    destruct (String.eqb_spec s symbol) as [Heq|Hne]; [reflexivity|].
    unfold collected. now rewrite (Hsame s Hne).
  - intros klines before after Hnone. rewrite Hnone.
    split; [reflexivity|].
    unfold Swing.scan. rewrite !flat_map_app. cbn [flat_map].
    rewrite Hnone. reflexivity.
Qed.

Lemma failed_fetch_zero_contribution_witness :
  fetch_and_process_symbol "XRPUSDT" ((fun _ => example_no_depth) "XRPUSDT")
  = Ok (Metrics "XRPUSDT" 0 0 0 1 inf 0)
  /\ is_short (enriched (Metrics "XRPUSDT" 0 0 0 1 inf 0)) = true.
Proof.
  destruct (proj1 (failed_fetch_zero_contribution
                     (fun _ => example_no_depth) "XRPUSDT")
                  eq_refl 0 1 0%Z 1%Z eq_refl eq_refl eq_refl)
    as (ratio & Hratio & Hfetch & Hshort & _).
  change (bs_ratio 0 1) with (Ok (A := float) 0) in Hratio.
  assert (Hr : ratio = 0) by congruence. subst ratio.
  split; [exact Hfetch|reflexivity].
Defined.

End Flow.

(** ** Signs of the notional totals

    Products and sums of non-negative finite numbers, over [spec_float]. *)

Module PyFloatSign.
Import PyFloat.

Open Scope float_scope.

Definition SFnonneg (x : spec_float) : Prop :=
  match x with
  | S754_zero _ | S754_finite false _ _ | S754_infinity false => True
  | _ => False
  end.

Definition SFnonneg_finite (x : spec_float) : Prop :=
  match x with
  | S754_zero _ | S754_finite false _ _ => True
  | _ => False
  end.

Lemma leb_zero_nonneg (x : float) : (0 <=? x) = true <-> SFnonneg (Prim2SF x).
Proof.
  rewrite leb_spec. change (Prim2SF 0) with (S754_zero false).
  unfold SFleb. destruct (Prim2SF x) as [s|[|]| |[|] m e]; simpl; intuition discriminate.
Qed.

Lemma finite_nonneg (x : float) :
  (0 <=? x) = true -> is_finite x = true -> SFnonneg_finite (Prim2SF x).
Proof.
  intros H Hf. apply leb_zero_nonneg in H. apply is_finite_true in Hf.
  destruct (Prim2SF x) as [s|s| |s m e]; simpl in *; auto.
Qed.

Lemma binary_round_aux_sign prec emax m e l :
  (0 <= m)%Z -> SFnonneg (binary_round_aux prec emax false m e l).
Proof.
  intros H. unfold binary_round_aux.
  pose proof (shr_fexp_nonneg prec emax m e l H) as H1.
  destruct (shr_fexp prec emax m e l) as [mrs' e']. simpl in H1.
  pose proof (shr_fexp_nonneg prec emax _ e' loc_Exact
                (round_nearest_even_nonneg _ (loc_of_shr_record mrs') H1)) as H2.
  destruct (shr_fexp prec emax _ e' loc_Exact) as [mrs'' e'']. simpl in H2.
  destruct (shr_m mrs''); try lia; simpl; auto.
  destruct (e'' <=? _)%Z; simpl; auto.
Qed.

Lemma SFmul_nonneg prec emax x y :
  SFnonneg_finite x -> SFnonneg_finite y -> SFnonneg (SFmul prec emax x y).
Proof.
  destruct x as [sx|sx| |[|] mx ex], y as [sy|sy| |[|] my ey]; simpl; try tauto.
  intros _ _. apply binary_round_aux_sign. lia.
Qed.

Lemma SFadd_nonneg prec emax x y :
  SFnonneg x -> SFnonneg y -> SFnonneg (SFadd prec emax x y).
Proof.
  destruct x as [sx|[|]| |[|] mx ex], y as [sy|[|]| |[|] my ey]; simpl; try tauto.
  - destruct sx, sy; simpl; auto.
  - intros _ _. unfold binary_normalize.
    set (a := fst (shl_align mx ex (Z.min ex ey))).
    set (b := fst (shl_align my ey (Z.min ex ey))).
    change (Z.pos a + Z.pos b)%Z with (Z.pos (a + b)).
    unfold binary_round.
    destruct (shl_align (a + b) _ _) as [mz ez].
    apply binary_round_aux_sign. lia.
Qed.

Lemma mul_nonneg (a b : float) :
  (0 <=? a) = true -> is_finite a = true ->
  (0 <=? b) = true -> is_finite b = true -> (0 <=? a * b) = true.
Proof.
  intros Ha Hfa Hb Hfb. apply leb_zero_nonneg. rewrite mul_spec.
  apply SFmul_nonneg; now apply finite_nonneg.
Qed.

Lemma add_nonneg (a b : float) :
  (0 <=? a) = true -> (0 <=? b) = true -> (0 <=? a + b) = true.
Proof.
  rewrite !leb_zero_nonneg, add_spec. apply SFadd_nonneg.
Qed.

Lemma SFdiv_nonneg prec emax x y :
  SFnonneg_finite x ->
  match y with S754_finite false _ _ => True | _ => False end ->
  SFnonneg (SFdiv prec emax x y).
Proof.
  destruct x as [sx|sx| |[|] mx ex], y as [sy|sy| |[|] my ey]; simpl; try tauto.
  intros _ _.
  pose proof (SFdiv_core_nonneg prec emax mx ex my ey) as H.
  destruct (SFdiv_core_binary prec emax (Zpos mx) ex (Zpos my) ey) as [[mz ez] lz].
  now apply binary_round_aux_sign.
Qed.

Lemma round_int_nonneg (x : float) :
  SFnonneg_finite (Prim2SF x) -> exists z, round_int x = Ok z /\ (0 <= z)%Z.
Proof.
  unfold round_int. destruct (Prim2SF x) as [s|s| |[|] m e]; simpl; try tauto.
  - intros _. exists 0%Z. split; [reflexivity|lia].
  - intros _. eexists. split; [reflexivity|].
    destruct e as [|p|p]; try lia.
    set (d := (2 ^ Z.pos p)%Z).
    assert (Hd : (0 < d)%Z) by (apply Z.pow_pos_nonneg; lia).
    assert (Hq : (0 <= Z.pos m / d)%Z) by (apply Z.div_pos; lia).
    destruct (_ <? d)%Z; [exact Hq|].
    destruct (d <? _)%Z; [lia|].
    destruct (Z.even _); lia.
Qed.

Lemma round_int_infinite (x : float) :
  SFnonneg (Prim2SF x) -> ~ SFnonneg_finite (Prim2SF x) ->
  round_int x = Raise OverflowError.
Proof.
  unfold round_int. destruct (Prim2SF x) as [s|[|]| |[|] m e]; simpl; tauto.
Qed.

End PyFloatSign.

(** ** The four totals of one symbol *)

Module Totals.
Import PyFloat PyFloatSign Flow.

Open Scope float_scope.

(** The [[price, quantity]] pairs of the trades whose buyer-is-maker flag
    is [m]: the taker sells for [true], the taker buys for [false]. *)
Definition side (m : bool) (response : list trade) : list (raw * raw) :=
  map (fun t => (trade_p t, trade_q t))
      (filter (fun t => Bool.eqb (trade_m t) m) response).

Lemma notional_exn (p q : raw) (e : exn) :
  notional p q = Raise e -> e = ValueError.
Proof.
  unfold notional. destruct p as [x|], q as [y|]; simpl; congruence.
Qed.

Lemma mapM_notional_exn (levels : list (raw * raw)) (e : exn) :
  mapM (fun level => notional (fst level) (snd level)) levels = Raise e ->
  e = ValueError.
Proof.
  induction levels as [|l rest IH]; simpl; [discriminate|].
  destruct (notional (fst l) (snd l)) eqn:Hn.
  - destruct (mapM _ rest); [discriminate|]. intros H. apply IH. congruence.
  - intros H. apply (notional_exn (fst l) (snd l)). congruence.
Qed.

Lemma sum_notional_exn (levels : list (raw * raw)) (e : exn) :
  sum_notional levels = Raise e -> e = ValueError.
Proof.
  unfold sum_notional.
  destruct (mapM _ levels) eqn:Hm; simpl; [discriminate|].
  intros H. apply (mapM_notional_exn levels). congruence.
Qed.

(** The two running totals as two sums, from any starting values. *)
Lemma trade_loop_by_side (response : list trade) (buy sell : float) :
  trade_loop response buy sell
  = (buys ← mapM (fun level => notional (fst level) (snd level)) (side false response);
     sells ← mapM (fun level => notional (fst level) (snd level)) (side true response);
     Ok (fold_left add buys buy, fold_left add sells sell)).
Proof.
  revert buy sell. induction response as [|t rest IH]; intros buy sell.
  - reflexivity.
  - cbn [trade_loop]. unfold side in *. cbn [filter].
    destruct (notional (trade_p t) (trade_q t)) as [n|e] eqn:Hn;
      cbn [mbind outcome_bind].
    + destruct (trade_m t); cbn [negb Bool.eqb map mapM fst snd];
        rewrite IH, Hn;
        destruct (mapM _ (map _ (filter (fun t => Bool.eqb (trade_m t) false) rest)));
        cbn [mbind outcome_bind]; try reflexivity;
        destruct (mapM _ (map _ (filter (fun t => Bool.eqb (trade_m t) true) rest)));
        reflexivity.
    + pose proof (notional_exn _ _ _ Hn) as ->.
      destruct (trade_m t); cbn [negb Bool.eqb map mapM fst snd]; rewrite Hn.
      * destruct (mapM _ (map _ (filter (fun t => Bool.eqb (trade_m t) false) rest)))
          as [buys|e] eqn:Hb; cbn [mbind outcome_bind]; [reflexivity|].
        now rewrite (mapM_notional_exn _ _ Hb).
      * reflexivity.
Qed.


(** *** Non-negative inputs *)

(** A field that is a non-negative finite number. *)
Definition plausible_field (r : raw) : bool :=
  match r with
  | Some x => (0 <=? x) && is_finite x
  | None => false
  end.

Definition plausible_level (level : raw * raw) : bool :=
  plausible_field (fst level) && plausible_field (snd level).

Definition plausible (ev : evidence) : bool :=
  match ev_depth ev with
  | Some d => forallb plausible_level (bids d) && forallb plausible_level (asks d)
  | None => true
  end
  && match ev_trades ev with
     | Some ts =>
         forallb (fun t => plausible_level (trade_p t, trade_q t)) ts
     | None => true
     end.

Lemma notional_nonneg (level : raw * raw) :
  plausible_level level = true ->
  exists n, notional (fst level) (snd level) = Ok n /\ (0 <=? n) = true.
Proof.
  unfold plausible_level, plausible_field, notional.
  destruct level as [[p|] [q|]]; simpl; try discriminate;
    rewrite ?andb_false_r; try discriminate.
  rewrite !andb_true_iff. intros [[Hp Hfp] [Hq Hfq]].
  exists (p * q). split; [reflexivity|now apply mul_nonneg].
Qed.

Lemma fold_add_nonneg (values : list float) (start : float) :
  (0 <=? start) = true -> Forall (fun n => (0 <=? n) = true) values ->
  (0 <=? fold_left add values start) = true.
Proof.
  revert start. induction values as [|n rest IH]; intros start Hs Hv; simpl.
  - exact Hs.
  - apply Forall_cons_iff in Hv as [Hn Hrest].
    apply IH; [now apply add_nonneg|exact Hrest].
Qed.

Lemma mapM_notional_nonneg (levels : list (raw * raw)) :
  forallb plausible_level levels = true ->
  exists values,
    mapM (fun level => notional (fst level) (snd level)) levels = Ok values
    /\ Forall (fun n => (0 <=? n) = true) values.
Proof.
  induction levels as [|l rest IH]; simpl; intros H.
  - exists []. split; [reflexivity|constructor].
  - apply andb_true_iff in H as [Hl Hrest].
    destruct (notional_nonneg l Hl) as (n & -> & Hn).
    destruct (IH Hrest) as (values & -> & Hv).
    exists (n :: values). split; [reflexivity|now constructor].
Qed.

Lemma sum_notional_nonneg (levels : list (raw * raw)) :
  forallb plausible_level levels = true ->
  exists total, sum_notional levels = Ok total /\ (0 <=? total) = true.
Proof.
  intros H. unfold sum_notional.
  destruct (mapM_notional_nonneg levels H) as (values & -> & Hv).
  cbn [mbind outcome_bind].
  eexists. split; [reflexivity|]. now apply fold_add_nonneg.
Qed.

Lemma side_plausible (m : bool) (response : list trade) :
  forallb (fun t => plausible_level (trade_p t, trade_q t)) response = true ->
  forallb plausible_level (side m response) = true.
Proof.
  unfold side. induction response as [|t rest IH]; simpl; [reflexivity|].
  rewrite andb_true_iff. intros [Ht Hrest].
  destruct (Bool.eqb (trade_m t) m); simpl; [|now apply IH].
  now rewrite Ht, IH.
Qed.

Lemma passive_nonneg (response : option depth) :
  match response with
  | Some d => forallb plausible_level (bids d) && forallb plausible_level (asks d)
  | None => true
  end = true ->
  exists b a, calculate_passive_order_value response = Ok (b, a)
              /\ (0 <=? b) = true /\ (0 <=? a) = true.
Proof.
  destruct response as [d|]; simpl.
  - rewrite andb_true_iff. intros [Hb Ha].
    destruct (sum_notional_nonneg _ Hb) as (b & -> & Hb').
    destruct (sum_notional_nonneg _ Ha) as (a & -> & Ha').
    now exists b, a.
  - intros _. now exists 0, 0.
Qed.

Lemma active_nonneg (response : option (list trade)) :
  match response with
  | Some ts => forallb (fun t => plausible_level (trade_p t, trade_q t)) ts
  | None => true
  end = true ->
  exists b s, calculate_active_trade_value response = Ok (b, s)
              /\ (0 <=? b) = true /\ (0 <=? s) = true.
Proof.
  destruct response as [ts|].
  - intros H. cbn [calculate_active_trade_value]. rewrite trade_loop_by_side.
    destruct (mapM_notional_nonneg _ (side_plausible false ts H)) as (vb & -> & Hb).
    destruct (mapM_notional_nonneg _ (side_plausible true ts H)) as (vs & -> & Hs).
    cbn [mbind outcome_bind]. eexists _, _. split; [reflexivity|].
    split; now apply fold_add_nonneg.
  - intros _. now exists 0, 0.
Qed.

Lemma round_int_cases (x : float) :
  (0 <=? x) = true ->
  round_int x = Raise OverflowError
  \/ exists z, round_int x = Ok z /\ (0 <= z)%Z /\ SFnonneg_finite (Prim2SF x).
Proof.
  intros H. apply leb_zero_nonneg in H.
  destruct (Prim2SF x) as [s|[|]| |[|] m e] eqn:Hx; simpl in H; try tauto.
  - right. destruct (round_int_nonneg x) as (z & Hz & Hz0);
      [rewrite Hx; exact I|].
    exists z. now repeat split.
  - left. apply round_int_infinite; rewrite Hx; simpl; tauto.
  - right. destruct (round_int_nonneg x) as (z & Hz & Hz0);
      [rewrite Hx; exact I|].
    exists z. now repeat split.
Qed.

Lemma ratio_nonneg (n d : float) :
  SFnonneg_finite (Prim2SF n) -> SFnonneg_finite (Prim2SF d) ->
  (0 <=? (if gt d 0 then n / d else inf)) = true.
Proof.
  intros Hn Hd. unfold gt. destruct (0 <? d) eqn:Hpos; [|reflexivity].
  apply leb_zero_nonneg. rewrite div_spec.
  apply SFdiv_nonneg; [exact Hn|].
  apply pos_not_zero in Hpos.
  destruct (Prim2SF d) as [s|s| |[|] m e]; simpl in *; tauto.
Qed.

(** X2. When every price and quantity of the order book and of the trades
    is a non-negative finite number, the task either raises
    [OverflowError] (a total overflowed to infinity, which [round]
    rejects) or returns a record whose four rounded totals are
    non-negative and whose two ratios are non-negative, hence not NaN. *)
Theorem plausible_evidence_nonneg_metrics (symbol : string) (ev : evidence) :
  plausible ev = true ->
  fetch_and_process_symbol symbol ev = Raise OverflowError
  \/ exists r,
      fetch_and_process_symbol symbol ev = Ok r
      /\ (0 <= limitBuy r)%Z /\ (0 <= limitSell r)%Z
      /\ (0 <= marketBuy r)%Z /\ (0 <= marketSell r)%Z
      /\ (0 <=? limit_bs_ratio r) = true /\ (0 <=? market_bs_ratio r) = true.
Proof.
  unfold plausible. rewrite andb_true_iff. intros [Hd Ht].
  destruct (passive_nonneg _ Hd) as (lb & ls & Hp & Hlb & Hls).
  destruct (active_nonneg _ Ht) as (mb & ms & Ha & Hmb & Hms).
  unfold fetch_and_process_symbol. rewrite Hp, Ha.
  cbn [mbind outcome_bind fst snd]. rewrite !bs_ratio_Ok.
  cbn [mbind outcome_bind].
  destruct (round_int_cases lb Hlb) as [->|(zlb & -> & Hzlb & Flb)];
    [now left|cbn [mbind outcome_bind]].
  destruct (round_int_cases ls Hls) as [->|(zls & -> & Hzls & Fls)];
    [now left|cbn [mbind outcome_bind]].
  destruct (round_int_cases mb Hmb) as [->|(zmb & -> & Hzmb & Fmb)];
    [now left|cbn [mbind outcome_bind]].
  destruct (round_int_cases ms Hms) as [->|(zms & -> & Hzms & Fms)];
    [now left|cbn [mbind outcome_bind]].
  right. eexists. split; [reflexivity|]. cbn.
  repeat split; try assumption; now apply ratio_nonneg.
Qed.

Lemma plausible_evidence_nonneg_metrics_witness :
  exists r, fetch_and_process_symbol "BTCUSDT" example_evidence = Ok r
            /\ (0 <= limitBuy r)%Z /\ (0 <=? limit_bs_ratio r) = true.
Proof.
  destruct (plausible_evidence_nonneg_metrics "BTCUSDT" example_evidence eq_refl)
    as [Hraise|(r & Hr & H1 & _ & _ & _ & H5 & _)].
  - discriminate Hraise.
  - exists r. now repeat split.
Defined.

End Totals.

(** ** Order of the collection and of the tables *)

Module Ranking.
Import PyFloat Flow.

Open Scope float_scope.

(** *** The re-sorted collection *)

Lemma index_app (pre rest : list string) (s : string) :
  ~ In s pre -> index (pre ++ s :: rest) s = Ok (List.length pre).
Proof.
  induction pre as [|c pre IH]; simpl; intros Hnot.
  - now rewrite String.eqb_refl.
  - destruct (String.eqb_spec c s) as [Heq|Hne]; [tauto|].
    rewrite IH by tauto. reflexivity.
Qed.

Lemma rank_app (pre rest : list string) (s : string) :
  ~ In s pre -> rank (pre ++ s :: rest) s = List.length pre.
Proof.
  intros H. unfold rank. now rewrite index_app.
Qed.

(** The records of a suffix of the universe, taken in universe order, are
    already in rank order, all of rank at least the length of the prefix. *)
Lemma keyed_suffix_ordered (feed : string -> evidence) (pre suf : list string) :
  NoDup (pre ++ suf) ->
  PySort.no_inversion Nat.ltb fst
    (keyed (pre ++ suf) (flat_map (collected feed) suf))
  /\ Forall (fun p => (List.length pre <= fst p)%nat)
            (keyed (pre ++ suf) (flat_map (collected feed) suf)).
Proof.
  revert pre. induction suf as [|s rest IH]; intros pre Hnd.
  - split; [exact I|constructor].
  - assert (Hsplit : pre ++ s :: rest = (pre ++ [s]) ++ rest)
      by now rewrite <- app_assoc.
    rewrite Hsplit in Hnd |- *.
    destruct (IH (pre ++ [s]) Hnd) as [Hinv Hge].
    rewrite length_app in Hge. cbn [List.length] in Hge.
    cbn [flat_map]. unfold collected at 1 3.
    destruct (fetch_and_process_symbol s (feed s)) as [r|] eqn:Hf; cbn [app].
    + unfold keyed in *. cbn [map]. rewrite (fetch_coin _ _ _ Hf).
      assert (Hrank : rank ((pre ++ [s]) ++ rest) s = List.length pre).
      { rewrite <- Hsplit. apply rank_app.
        rewrite <- Hsplit in Hnd. apply NoDup_remove_2 in Hnd.
        intros Hin. apply Hnd. apply in_or_app. now left. }
      rewrite Hrank. split.
      * split; [|exact Hinv].
        rewrite Forall_forall in *. intros p Hp. cbn [fst].
        apply Nat.ltb_ge. specialize (Hge p Hp). lia.
      * constructor; [cbn [fst]; lia|].
        rewrite Forall_forall in *. intros p Hp. specialize (Hge p Hp). lia.
    + split; [exact Hinv|].
      rewrite Forall_forall in *. intros p Hp. specialize (Hge p Hp). lia.
Qed.

Lemma map_snd_keyed (coins : list string) (data : list metrics) :
  map snd (keyed coins data) = data.
Proof.
  unfold keyed. rewrite map_map. cbn [snd]. apply map_id.
Qed.

(** X3. With a universe that has no repeated symbol, re-sorting the
    records collected in any completion order gives exactly the records in
    submission (rank) order. *)
Theorem resort_restores_submission_order
        (coins_to_analyze : list string) (feed : string -> evidence)
        (completion : list string) :
  NoDup coins_to_analyze -> Permutation completion coins_to_analyze ->
  sort_by_rank coins_to_analyze (collect feed completion)
  = Ok (collect feed coins_to_analyze).
Proof.
  intros Hnd Hperm.
  assert (Hin : forall s, In s completion -> In s coins_to_analyze)
    by (intros s; apply Permutation_in, Hperm).
  rewrite sort_by_rank_Ok
    by (intros x Hx; apply collect_In in Hx as [Hx _]; now apply Hin).
  rewrite (sorted_keyed_eq coins_to_analyze feed _ _ Hperm Hin).
  f_equal. rewrite <- (map_snd_keyed coins_to_analyze (collect feed coins_to_analyze)) at 2.
  f_equal.
  apply (PySort.no_inversion_unique _ _ Nat.ltb fst).
  - intros [i x] [j y] Hx Hy Hij Hji. simpl in Hij, Hji.
    apply PySort.sort_In in Hx, Hy. unfold keyed in Hx, Hy.
    apply in_map_iff in Hx as (x' & Ex & Hx).
    apply in_map_iff in Hy as (y' & Ey & Hy).
    injection Ex as <- <-. injection Ey as <- <-.
    apply collect_In in Hx as [Hxc Hxf]. apply collect_In in Hy as [Hyc Hyf].
    apply Nat.ltb_ge in Hij, Hji.
    assert (Hrank : rank coins_to_analyze (coin x') = rank coins_to_analyze (coin y'))
      by lia.
    apply rank_inj in Hrank; [|assumption|assumption].
    rewrite Hrank in Hxf. rewrite Hxf in Hyf. congruence.
  - apply PySort.sort_perm.
  - apply PySort.sort_asc_no_inversion; [exact ltb_nat_trans|exact ltb_nat_asym].
  - rewrite collect_flat_map.
    apply (keyed_suffix_ordered feed [] coins_to_analyze Hnd).
Qed.

Lemma resort_restores_submission_order_witness :
  sort_by_rank ["BTCUSDT"; "ETHUSDT"]%string
    (collect example_feed ["ETHUSDT"; "BTCUSDT"]%string)
  = Ok (collect example_feed ["BTCUSDT"; "ETHUSDT"]%string).
Proof.
  apply (resort_restores_submission_order
           ["BTCUSDT"; "ETHUSDT"]%string example_feed
           ["ETHUSDT"; "BTCUSDT"]%string).
  - repeat constructor; simpl; intuition discriminate.
  - apply perm_swap.
Defined.

(** *** The two tables *)

Lemma SFcompare_not_Lt (a b : spec_float) :
  a <> S754_nan -> b <> S754_nan -> SFcompare a b <> Some Lt ->
  SFcompare b a = Some Lt \/ SFcompare b a = Some Eq.
Proof.
  intros Ha Hb H. sf_cases; cmp_cases; auto.
Qed.

Lemma not_ltb_leb (a b : float) :
  is_nan a = false -> is_nan b = false -> (a <? b) = false ->
  (b <=? a) = true.
Proof.
  rewrite !is_nan_false. intros Ha Hb Hlt.
  assert (H : SFcompare (Prim2SF a) (Prim2SF b) <> Some Lt).
  { intros Hc. apply ltb_compare in Hc. congruence. }
  rewrite leb_spec. unfold SFleb.
  destruct (SFcompare_not_Lt _ _ Ha Hb H) as [-> | ->]; reflexivity.
Qed.

(** Down the list the keys never increase: a row's key is at most the key
    of every row above it. *)
Fixpoint non_increasing {A : Type} (key : A -> float) (l : list A) : Prop :=
  match l with
  | [] => True
  | x :: rest =>
      Forall (fun y => (key y <=? key x) = true) rest /\ non_increasing key rest
  end.

Lemma non_increasing_app {A : Type} (key : A -> float) (l : list A) (y : A) :
  non_increasing key l -> Forall (fun x => (key y <=? key x) = true) l ->
  non_increasing key (l ++ [y]).
Proof.
  induction l as [|x rest IH]; simpl; intros Hl Hy.
  - split; [constructor|exact I].
  - destruct Hl as [Hx Hrest]. apply Forall_cons_iff in Hy as [Hyx Hy].
    split; [|now apply IH].
    apply Forall_app. split; [exact Hx|]. now constructor.
Qed.

Lemma rev_non_increasing {A : Type} (key : A -> float) (l : list A) :
  Forall (fun x => is_nan (key x) = false) l ->
  PySort.no_inversion ltb key l -> non_increasing key (rev l).
Proof.
  induction l as [|y rest IH]; simpl; intros Hnan Hinv; [exact I|].
  apply Forall_cons_iff in Hnan as [Hy Hnan]. destruct Hinv as [Hrest Hinv].
  apply non_increasing_app; [now apply IH|].
  rewrite Forall_forall in *. intros x Hx. apply in_rev in Hx.
  apply not_ltb_leb; auto.
Qed.

Lemma sort_desc_non_increasing {A : Type} (key : A -> float) (l : list A) :
  Forall (fun x => is_nan (key x) = false) l ->
  non_increasing key (PySort.sort ltb key true l).
Proof.
  intros Hnan. cbn [PySort.sort]. apply rev_non_increasing.
  - rewrite Forall_forall in *. intros x Hx. apply Hnan.
    apply in_rev. apply (Permutation_in _ (PySort.sort_asc_perm _ _ ltb key (rev l))).
    exact Hx.
  - apply PySort.sort_asc_no_inversion; [exact ltb_trans|exact ltb_asym].
Qed.

(** X4. Each table holds exactly the rows that pass its filter, each as
    often as in the input, and is ranked: down the potential-shorts table
    the limit/market key never increases, down the potential-longs table
    the market/limit key never increases; and no key of a row is a NaN. *)
Theorem tables_are_ranked (all_coin_data : list metrics) :
  exists potential_shorts potential_longs,
    display_trade_setups all_coin_data = Ok (potential_shorts, potential_longs)
    /\ Permutation potential_shorts (filter is_short (map enriched all_coin_data))
    /\ Permutation potential_longs (filter is_long (map enriched all_coin_data))
    /\ non_increasing limit_market_ratio potential_shorts
    /\ non_increasing market_limit_ratio potential_longs
    /\ Forall (fun c => is_nan (limit_market_ratio c) = false) potential_shorts
    /\ Forall (fun c => is_nan (market_limit_ratio c) = false) potential_longs.
Proof.
  destruct (display_trade_setups_Ok all_coin_data) as [_ Hd].
  eexists _, _. split; [exact Hd|].
  assert (Hs : Forall (fun c => is_nan (limit_market_ratio c) = false)
                      (filter is_short (map enriched all_coin_data))).
  { rewrite Forall_forall. intros c Hc. apply filter_In in Hc as [Hin Hc].
    apply in_map_iff in Hin as (m & <- & _). now apply (table_keys_not_nan m). }
  assert (Hl : Forall (fun c => is_nan (market_limit_ratio c) = false)
                      (filter is_long (map enriched all_coin_data))).
  { rewrite Forall_forall. intros c Hc. apply filter_In in Hc as [Hin Hc].
    apply in_map_iff in Hin as (m & <- & _). now apply (table_keys_not_nan m). }
  split; [apply PySort.sort_perm|]. split; [apply PySort.sort_perm|].
  split; [now apply sort_desc_non_increasing|].
  split; [now apply sort_desc_non_increasing|].
  split; rewrite Forall_forall in *; intros c Hc;
    apply PySort.sort_In in Hc; auto.
Qed.

End Ranking.

(** ** What an alert says *)

Module Alerts.
Import PyFloat Swing.

Open Scope float_scope.




(** *** The shape of a confirmed pattern *)

Lemma sub_not_nan (a b : float) :
  is_nan (a - b) = false -> is_nan a = false /\ is_nan b = false.
Proof.
  rewrite !is_nan_false, sub_spec. unfold SF64sub.
  destruct (Prim2SF a), (Prim2SF b); simpl; intros H; split; congruence.
Qed.

Lemma abs_not_nan (a : float) : is_nan (abs a) = false -> is_nan a = false.
Proof.
  rewrite !is_nan_false, abs_spec. destruct (Prim2SF a); simpl; congruence.
Qed.

Lemma not_ltb_ltb_trans (a b c : float) :
  is_nan a = false -> is_nan b = false ->
  (a <? b) = false -> (a <? c) = true -> (b <? c) = true.
Proof.
  rewrite !is_nan_false. intros Ha Hb Hab Hac.
  apply ltb_compare in Hac. apply ltb_compare.
  assert (H : SFcompare (Prim2SF a) (Prim2SF b) <> Some Lt).
  { intros Hc. apply ltb_compare in Hc. congruence. }
  revert Ha Hb H Hac.
  generalize (Prim2SF a) (Prim2SF b) (Prim2SF c). intros x y z Hx Hy H Hxz.
  sf_cases; cmp_cases.
Qed.

(** X6. In a confirmed pattern the middle candle's high is a strict swing
    high with an upper shadow: it lies strictly above the left high, the
    current high and the middle candle's own open and close; and neither
    the left nor the current candle is a doji. *)
Theorem confirmed_pattern_shape (left mid curr : candle) :
  all_rules left mid curr = true ->
  (c_high left <? c_high mid) = true
  /\ (c_high curr <? c_high mid) = true
  /\ (c_open mid <? c_high mid) = true
  /\ (c_close mid <? c_high mid) = true
  /\ (c_open left =? c_close left) = false
  /\ (c_open curr =? c_close curr) = false.
Proof.
  rewrite all_rules_true.
  unfold rule1, rule2, rule3, rule4, rule5, rule6, rule7, lt, gt,
    mid_candle_body_top, mid_candle_body_size, left_candle_body_size, max2, gt.
  intros (H1 & H2 & H3 & H4 & H5 & H6 & H7).
  assert (Htop : ((if c_open mid <? c_close mid then c_close mid else c_open mid)
                  <? c_high mid) = true)
    by (eapply ltb_trans; eassumption).
  assert (Hbody : is_nan (c_open mid) = false /\ is_nan (c_close mid) = false).
  { apply ltb_not_nan in H7 as [H7 _]. now apply sub_not_nan, abs_not_nan. }
  destruct Hbody as [Ho Hc].
  repeat split; try assumption.
  - destruct (c_open mid <? c_close mid) eqn:Hoc; [|exact Htop].
    now apply (ltb_trans _ (c_close mid)).
  - destruct (c_open mid <? c_close mid) eqn:Hoc; [exact Htop|].
    now apply (not_ltb_ltb_trans (c_open mid)).
  - now apply ltb_not_eqb in H2.
  - now apply ltb_not_eqb in H1.
Qed.

Lemma confirmed_pattern_shape_witness :
  (c_open (Candle 12 15 11 11) <? c_high (Candle 12 15 11 11)) = true.
Proof.
  apply (confirmed_pattern_shape (Candle 10 13 9 12) (Candle 12 15 11 11)
                                 (Candle 11 11 9 9)).
  reflexivity.
Defined.

(** *** A row that is too short *)

Lemma mapM_length {A B : Type} (f : A -> outcome B) (l : list A) (l' : list B) :
  mapM f l = Ok l' -> List.length l' = List.length l.
Proof.
  revert l'. induction l as [|x xs IH]; intros l'; simpl.
  - intros H. now injection H as <-.
  - destruct (f x); [|discriminate].
    destruct (mapM f xs) as [ys|]; [|discriminate].
    intros H. injection H as <-. simpl. now rewrite (IH ys).
Qed.

Lemma unpack_short (values : list float) :
  (List.length values < 4)%nat -> unpack values = Raise ValueError.
Proof.
  destruct values as [|a [|b [|c [|d [|e rest]]]]]; simpl; intros H;
    try reflexivity; lia.
Qed.

Lemma unpack_exn (values : list float) (e : exn) :
  unpack values = Raise e -> e = ValueError.
Proof.
  destruct values as [|a [|b [|c [|d [|x rest]]]]]; simpl; congruence.
Qed.

Lemma slice_short (k : kline) :
  (List.length k < 5)%nat -> (List.length (slice_1_5 k) < 4)%nat.
Proof.
  intros H. unfold slice_1_5. rewrite length_firstn, length_skipn. lia.
Qed.

(** X7. The unpacking of the three candles is outside the [try]: when
    the price fields of the last three rows all convert but one of these
    rows has fewer than five fields, [check_conditions] raises
    [ValueError]; the exception stays in the task's future, so the scan
    goes on and prints what it prints without that symbol. *)
Theorem short_row_raises_in_task
        (feed : string -> option (list kline)) (symbol : string)
        (pre : list kline) (kl km kc : kline) (vl vm vc : list float) :
  feed symbol = Some (pre ++ [kl; km; kc]) ->
  mapM to_float (slice_1_5 kl) = Ok vl ->
  mapM to_float (slice_1_5 km) = Ok vm ->
  mapM to_float (slice_1_5 kc) = Ok vc ->
  (List.length kl < 5 \/ List.length km < 5 \/ List.length kc < 5)%nat ->
  check_conditions symbol (feed symbol) = Raise ValueError
  /\ forall before after : list string,
       scan feed (before ++ symbol :: after) = scan feed (before ++ after).
Proof.
  intros Hfeed Hvl Hvm Hvc Hshort.
  assert (Hraise : check_conditions symbol (feed symbol) = Raise ValueError).
  { rewrite Hfeed. unfold check_conditions. rewrite guard_app3.
    unfold floats_of.
    destruct (getitem_neg_last3 pre kl km kc) as (-> & -> & ->).
    cbn [mbind outcome_bind]. rewrite Hvc, Hvm, Hvl. cbn [mbind outcome_bind].
    destruct (unpack vc) as [curr|ec] eqn:Huc; cbn [mbind outcome_bind];
      [|now rewrite (unpack_exn _ _ Huc)].
    destruct (unpack vm) as [mid|em] eqn:Hum; cbn [mbind outcome_bind];
      [|now rewrite (unpack_exn _ _ Hum)].
    destruct (unpack vl) as [left|el] eqn:Hul; cbn [mbind outcome_bind];
      [|now rewrite (unpack_exn _ _ Hul)].
    exfalso.
    destruct Hshort as [H|[H|H]]; apply slice_short in H.
    - rewrite <- (mapM_length _ _ _ Hvl) in H.
      rewrite (unpack_short _ H) in Hul. discriminate.
    - rewrite <- (mapM_length _ _ _ Hvm) in H.
      rewrite (unpack_short _ H) in Hum. discriminate.
    - rewrite <- (mapM_length _ _ _ Hvc) in H.
      rewrite (unpack_short _ H) in Huc. discriminate. }
  split; [exact Hraise|].
  intros before after. unfold scan.
  rewrite !flat_map_app. cbn [flat_map]. now rewrite Hraise.
Qed.

Lemma short_row_raises_in_task_witness :
  check_conditions "BTCUSDT"
    ((fun _ => Some ([] ++ [[Some 0; Some 10; Some 13]; example_mid; example_curr]))
       "BTCUSDT")
  = Raise ValueError.
Proof.
  apply (short_row_raises_in_task
           (fun _ => Some ([] ++ [[Some 0; Some 10; Some 13]; example_mid; example_curr]))
           "BTCUSDT" [] [Some 0; Some 10; Some 13] example_mid example_curr
           [10; 13] [12; 15; 11; 11] [11; 11; 9; 9]
           eq_refl eq_refl eq_refl eq_refl).
  left. simpl. lia.
Defined.

End Alerts.

(** ** The venue's instrument catalog
       ([get_futures_symbols], [get_binance_futures_symbols]) *)

Module Catalog.

Open Scope string_scope.
Open Scope list_scope.

(** One element of [data['symbols']]: a JSON object, of which only text
    fields are read.  [s !! key] is [s[key]], [None] standing for the
    [KeyError] of a missing key, which neither function catches. *)
Definition entry : Type := gmap string string.

(** The catalog request: [None] when it raised a [RequestException],
    otherwise [data], with [data['symbols']] present or not. *)
Definition response : Type := option (option (list entry)).

(** [s['quoteAsset'] == 'USDT' and s['status'] == 'TRADING'], with the
    short circuit of [and]. *)
Definition usdt_trading (s : entry) : option bool :=
  quoteAsset ← s !! "quoteAsset";
  if String.eqb quoteAsset "USDT"
  then status ← s !! "status"; Some (String.eqb status "TRADING")
  else Some false.

(** The same followed by [and s['contractType'] == 'PERPETUAL']. *)
Definition usdt_trading_perpetual (s : entry) : option bool :=
  quoteAsset ← s !! "quoteAsset";
  if String.eqb quoteAsset "USDT"
  then status ← s !! "status";
       if String.eqb status "TRADING"
       then contractType ← s !! "contractType";
            Some (String.eqb contractType "PERPETUAL")
       else Some false
  else Some false.

(** [[s['symbol'] for s in symbols if cond(s)]]. *)
Fixpoint comprehension (cond : entry -> option bool) (symbols : list entry)
  : option (list string) :=
  match symbols with
  | [] => Some []
  | s :: rest =>
      keep ← cond s;
      if keep : bool
      then symbol ← s !! "symbol";
           tail ← comprehension cond rest;
           Some (symbol :: tail)
      else comprehension cond rest
  end.

(** The detector's list. *)
Definition get_futures_symbols (r : response) : option (list string) :=
  match r with
  | None => Some []
  | Some data => symbols ← data; comprehension usdt_trading_perpetual symbols
  end.

(** The analyzers' set. *)
Definition get_binance_futures_symbols (r : response) : option (gset string) :=
  match r with
  | None => Some ∅
  | Some data =>
      symbols ← data;
      listed ← comprehension usdt_trading symbols;
      Some (list_to_set listed)
  end.

(** An entry the detector keeps. *)
Definition perpetual_usdt_trading (s : entry) (symbol : string) : Prop :=
  s !! "symbol" = Some symbol
  /\ s !! "quoteAsset" = Some "USDT"
  /\ s !! "status" = Some "TRADING"
  /\ s !! "contractType" = Some "PERPETUAL".

Lemma usdt_trading_perpetual_true (s : entry) :
  usdt_trading_perpetual s = Some true <->
  s !! "quoteAsset" = Some "USDT" /\ s !! "status" = Some "TRADING"
  /\ s !! "contractType" = Some "PERPETUAL".
Proof.
  unfold usdt_trading_perpetual.
  destruct (s !! "quoteAsset") as [q|]; simpl; [|intuition discriminate].
  destruct (String.eqb_spec q "USDT") as [->|Hq];
    [|split; [discriminate|intros (H & _); congruence]].
  destruct (s !! "status") as [st|]; simpl; [|intuition discriminate].
  destruct (String.eqb_spec st "TRADING") as [->|Hst];
    [|split; [discriminate|intros (_ & H & _); congruence]].
  destruct (s !! "contractType") as [ct|]; simpl; [|intuition discriminate].
  destruct (String.eqb_spec ct "PERPETUAL") as [->|Hct].
  - intuition.
  - split; [discriminate|intros (_ & _ & H); congruence].
Qed.

Lemma usdt_trading_weaker (s : entry) (k1 k2 : bool) :
  usdt_trading_perpetual s = Some k1 -> usdt_trading s = Some k2 ->
  k1 = true -> k2 = true.
Proof.
  unfold usdt_trading_perpetual, usdt_trading.
  destruct (s !! "quoteAsset") as [q|]; simpl; [|discriminate].
  destruct (String.eqb q "USDT"); [|congruence].
  destruct (s !! "status") as [st|]; simpl; [|discriminate].
  destruct (String.eqb st "TRADING"); congruence.
Qed.

Lemma comprehension_perpetual (symbols : list entry) (listed : list string) :
  comprehension usdt_trading_perpetual symbols = Some listed ->
  sublist listed (omap (fun s : entry => s !! "symbol") symbols)
  /\ forall symbol,
       In symbol listed <->
       exists s, In s symbols /\ perpetual_usdt_trading s symbol.
Proof.
  revert listed. induction symbols as [|s rest IH]; intros listed; simpl.
  - intros H. injection H as <-. split; [constructor|].
    intros symbol. split; [contradiction|]. intros (s & [] & _).
  - destruct (usdt_trading_perpetual s) as [[|]|] eqn:Hk; simpl; [| |discriminate].
    + destruct (s !! "symbol") as [sym|] eqn:Hsym; simpl; [|discriminate].
      destruct (comprehension usdt_trading_perpetual rest) as [tail|]; simpl;
        [|discriminate].
      intros H. injection H as <-.
      destruct (IH tail eq_refl) as [Hsub Hin].
      apply usdt_trading_perpetual_true in Hk.
      split; [now constructor|].
      intros symbol. split.
      * intros [<-|Ht].
        -- exists s. split; [now left|]. now split.
        -- apply Hin in Ht as (s' & Hs' & Hp). exists s'. split; [now right|exact Hp].
      * intros (s' & [<-|Hs'] & Hp).
        -- destruct Hp as (Hp & _). left. congruence.
        -- right. apply Hin. now exists s'.
    + intros H. destruct (IH listed H) as [Hsub Hin].
      split.
      * destruct (s !! "symbol"); [now constructor|exact Hsub].
      * intros symbol. rewrite Hin. split.
        -- intros (s' & Hs' & Hp). exists s'. split; [now right|exact Hp].
        -- intros (s' & [<-|Hs'] & Hp); [|now exists s'].
           destruct Hp as (_ & Hp). apply usdt_trading_perpetual_true in Hp.
           congruence.
Qed.

(** X8. When the catalog request fails the detector's list is empty.
    Otherwise, whenever the detector's list is returned, it holds, in
    catalog order, exactly the symbols of the entries quoted in USDT, with
    status TRADING and contract type PERPETUAL. *)
Theorem detector_list_is_perpetual_usdt_trading
        (symbols : list entry) (listed : list string) :
  get_futures_symbols (Some (Some symbols)) = Some listed ->
  get_futures_symbols None = Some []
  /\ sublist listed (omap (fun s : entry => s !! "symbol") symbols)
  /\ forall symbol,
       In symbol listed <->
       exists s, In s symbols /\ perpetual_usdt_trading s symbol.
Proof.
  simpl. intros H. split; [reflexivity|].
  now apply comprehension_perpetual.
Qed.

Definition example_catalog : list entry :=
  [ {[ "symbol" := "BTCUSDT"; "quoteAsset" := "USDT";
       "status" := "TRADING"; "contractType" := "PERPETUAL" ]};
    {[ "symbol" := "BTCUSDT_260327"; "quoteAsset" := "USDT";
       "status" := "TRADING"; "contractType" := "CURRENT_QUARTER" ]};
    {[ "symbol" := "ETHBTC"; "quoteAsset" := "BTC" ]};
    {[ "symbol" := "LUNAUSDT"; "quoteAsset" := "USDT";
       "status" := "SETTLING"; "contractType" := "PERPETUAL" ]} ].

Lemma detector_list_is_perpetual_usdt_trading_witness :
  get_futures_symbols (Some (Some example_catalog)) = Some ["BTCUSDT"]
  /\ sublist ["BTCUSDT"]
             (omap (fun s : entry => s !! "symbol") example_catalog).
Proof.
  assert (H : get_futures_symbols (Some (Some example_catalog)) = Some ["BTCUSDT"])
    by (vm_compute; reflexivity).
  split; [exact H|].
  apply (detector_list_is_perpetual_usdt_trading example_catalog ["BTCUSDT"] H).
Defined.

Lemma comprehension_included (symbols : list entry) (l1 l2 : list string) :
  comprehension usdt_trading_perpetual symbols = Some l1 ->
  comprehension usdt_trading symbols = Some l2 ->
  forall symbol, In symbol l1 -> In symbol l2.
Proof.
  revert l1 l2. induction symbols as [|s rest IH]; intros l1 l2; simpl.
  - intros H. injection H as <-. contradiction.
  - destruct (usdt_trading_perpetual s) as [k1|] eqn:Hk1; simpl; [|discriminate].
    destruct (usdt_trading s) as [k2|] eqn:Hk2; simpl; [|discriminate].
    pose proof (usdt_trading_weaker s k1 k2 Hk1 Hk2) as Hw.
    destruct k1.
    + rewrite (Hw eq_refl).
      destruct (s !! "symbol") as [sym|]; simpl; [|discriminate].
      destruct (comprehension usdt_trading_perpetual rest) as [t1|]; simpl;
        [|discriminate].
      destruct (comprehension usdt_trading rest) as [t2|]; simpl; [|discriminate].
      intros H1 H2. injection H1 as <-. injection H2 as <-.
      intros symbol [<-|Hin]; [now left|right]. now apply (IH t1 t2).
    + intros H1. destruct k2.
      * destruct (s !! "symbol") as [sym|]; simpl; [|discriminate].
        destruct (comprehension usdt_trading rest) as [t2|]; simpl; [|discriminate].
        intros H2. injection H2 as <-.
        intros symbol Hin. right. now apply (IH l1 t2).
      * intros H2. now apply IH.
Qed.

(** X9. For one and the same answer of the catalog request, whenever both
    functions return, every symbol the detector scans belongs to the set
    the analyzers match against (the set also keeps USDT contracts in
    TRADING status that are not perpetual). *)
Theorem detector_list_within_analyzer_set
        (r : response) (listed : list string) (tradable : gset string) :
  get_futures_symbols r = Some listed ->
  get_binance_futures_symbols r = Some tradable ->
  forall symbol, In symbol listed -> symbol ∈ tradable.
Proof.
  destruct r as [[symbols|]|]; simpl; try discriminate.
  - destruct (comprehension usdt_trading symbols) as [l2|] eqn:H2; simpl;
      [|discriminate].
    intros H1 H. injection H as <-. intros symbol Hin.
    apply elem_of_list_to_set, list_elem_of_In.
    now apply (comprehension_included symbols listed l2).
  - intros H. injection H as <-. contradiction.
Qed.

Lemma detector_list_within_analyzer_set_witness :
  "BTCUSDT" ∈ ({[ "BTCUSDT"; "BTCUSDT_260327" ]} : gset string).
Proof.
  apply (detector_list_within_analyzer_set (Some (Some example_catalog))
           ["BTCUSDT"] {[ "BTCUSDT"; "BTCUSDT_260327" ]}).
  - vm_compute. reflexivity.
  - vm_compute. reflexivity.
  - now left.
Defined.

End Catalog.

(** ** Before the scan: the key file and the early returns of [main] *)

Module Startup.
Import Universe.

Open Scope string_scope.

(** [c.isspace()] on an ASCII character: space, tab to carriage return,
    and the four separators 28 to 31. *)
Definition is_space (c : ascii) : bool :=
  let n := nat_of_ascii c in
  ((n =? 32)%nat || ((9 <=? n)%nat && (n <=? 13)%nat)
   || ((28 <=? n)%nat && (n <=? 31)%nat))%bool.

Fixpoint lstrip (s : string) : string :=
  match s with
  | EmptyString => EmptyString
  | String c rest => if is_space c then lstrip rest else s
  end.

Fixpoint rstrip (s : string) : string :=
  match s with
  | EmptyString => EmptyString
  | String c rest =>
      match rstrip rest with
      | EmptyString => if is_space c then EmptyString else String c EmptyString
      | kept => String c kept
      end
  end.

(** [s.strip()], on ASCII text. *)
Definition strip (s : string) : string := rstrip (lstrip s).

Fixpoint all_space (s : string) : bool :=
  match s with
  | EmptyString => true
  | String c rest => (is_space c && all_space rest)%bool
  end.

(** [read_api_key()], given the key file's content ([None]: no such
    file); the messages printed are left out. *)
Definition read_api_key (file : option string) : option string :=
  match file with
  | None => None
  | Some content =>
      let key := strip content in
      if String.eqb key "" then None else Some key
  end.

Lemma lstrip_split (s : string) :
  exists l, s = l ++ lstrip s /\ all_space l = true.
Proof.
  induction s as [|c rest IH]; simpl.
  - now exists "".
  - destruct (is_space c) eqn:Hc.
    + destruct IH as (l & Hl & Hs). exists (String c l). simpl.
      rewrite Hc, Hs. split; [exact (f_equal (String c) Hl)|reflexivity].
    + now exists "".
Qed.

Lemma rstrip_split (s : string) :
  exists r, s = rstrip s ++ r /\ all_space r = true.
Proof.
  induction s as [|c rest IH]; simpl.
  - now exists "".
  - destruct IH as (r & Hr & Hs).
    destruct (rstrip rest) as [|k kept] eqn:Hk.
    + change (rest = r) in Hr. subst r. destruct (is_space c) eqn:Hc.
      * exists (String c rest). simpl. now rewrite Hc, Hs.
      * exists rest. now split.
    + exists r. split; [exact (f_equal (String c) Hr)|exact Hs].
Qed.

Lemma rstrip_idem (s : string) : rstrip (rstrip s) = rstrip s.
Proof.
  induction s as [|c rest IH]; simpl; [reflexivity|].
  destruct (rstrip rest) as [|k kept] eqn:Hk.
  - destruct (is_space c) eqn:Hc; simpl; [reflexivity|now rewrite Hc].
  - change (rstrip (String c (String k kept)))
      with (match rstrip (String k kept) with
            | EmptyString => if is_space c then EmptyString else String c EmptyString
            | kept' => String c kept'
            end).
    now rewrite IH.
Qed.

Lemma rstrip_head (c : ascii) (rest : string) :
  is_space c = false -> exists kept, rstrip (String c rest) = String c kept.
Proof.
  intros Hc. simpl. destruct (rstrip rest) as [|k kept].
  - rewrite Hc. now exists "".
  - now exists (String k kept).
Qed.

Lemma lstrip_rstrip_lstrip (s : string) :
  lstrip (rstrip (lstrip s)) = rstrip (lstrip s).
Proof.
  induction s as [|c rest IH]; simpl; [reflexivity|].
  destruct (is_space c) eqn:Hc; [exact IH|].
  destruct (rstrip_head c rest Hc) as (kept & ->). simpl. now rewrite Hc.
Qed.

Lemma rstrip_empty (s : string) : rstrip s = "" <-> all_space s = true.
Proof.
  induction s as [|c rest IH]; simpl; [tauto|].
  destruct (rstrip rest) as [|k kept].
  - destruct (is_space c); simpl; [tauto|].
    split; discriminate.
  - rewrite andb_true_iff. split; [discriminate|].
    intros [_ H]. apply IH in H. discriminate.
Qed.

Lemma lstrip_all_space (s : string) :
  all_space (lstrip s) = true <-> all_space s = true.
Proof.
  induction s as [|c rest IH]; simpl; [tauto|].
  destruct (is_space c) eqn:Hc; simpl; [exact IH|].
  now rewrite Hc.
Qed.

(** X10. The key [read_api_key] returns is never empty and carries no
    white space at either end; the file's content is that key between two
    runs of white space; and no key is returned exactly when the file is
    missing or holds white space only. *)
Theorem read_api_key_strips (file : option string) :
  (forall key,
     read_api_key file = Some key ->
     key <> "" /\ lstrip key = key /\ rstrip key = key
     /\ exists content l r,
         file = Some content /\ content = l ++ key ++ r
         /\ all_space l = true /\ all_space r = true)
  /\ (read_api_key file = None <->
      file = None \/ exists content, file = Some content /\ all_space content = true).
Proof.
  destruct file as [content|]; simpl.
  - unfold strip.
    destruct (String.eqb_spec (rstrip (lstrip content)) "") as [Hempty|Hkey]; split.
    + discriminate.
    + split; [|reflexivity]. intros _. right. exists content. split; [reflexivity|].
      now apply lstrip_all_space, rstrip_empty.
    + intros key H. injection H as <-.
      split; [exact Hkey|]. split; [apply lstrip_rstrip_lstrip|].
      split; [apply rstrip_idem|].
      destruct (lstrip_split content) as (l & Hl & Hls).
      destruct (rstrip_split (lstrip content)) as (r & Hr & Hrs).
      exists content, l, r. repeat split; try assumption.
      rewrite <- Hr. exact Hl.
    + split; [discriminate|].
      intros [H|(c & H & Hs)]; [discriminate|]. injection H as <-.
      apply lstrip_all_space, rstrip_empty in Hs. contradiction.
  - split; [discriminate|]. split; [now left|reflexivity].
Qed.

Lemma read_api_key_strips_witness :
  read_api_key (Some (String "009" (String " " "abc-123 " ++ String "010" "")))
  = Some "abc-123"
  /\ lstrip "abc-123" = "abc-123".
Proof.
  assert (H : read_api_key
                (Some (String "009" (String " " "abc-123 " ++ String "010" "")))
              = Some "abc-123") by reflexivity.
  split; [exact H|].
  apply (proj1 (read_api_key_strips _) _ H).
Defined.

Open Scope list_scope.

(** The part of [main] before the scan, given the key file, what
    [get_cmc_market_data] returned ([None] on a failed request) and what
    [get_binance_futures_symbols] returned: the universe the scan is run
    on, or [None] when [main] returns early. *)
Definition universe_of_run (file : option string)
           (cmc_data : option (list coin_data))
           (binance_symbols_set : gset string) (FINAL_COIN_COUNT : nat)
  : option (list string) :=
  match read_api_key file with
  | None => None
  | Some api_key =>
      match cmc_data with
      | None | Some [] => None
      | Some cmc_data =>
          if bool_decide (binance_symbols_set = ∅) then None
          else
            match resolve FINAL_COIN_COUNT binance_symbols_set cmc_data with
            | [] => None
            | coins_to_analyze => Some coins_to_analyze
            end
      end
  end.

Lemma matches_tradable (X : gset string) (cmc_data : list coin_data) (s : string) :
  In s (matches X cmc_data) -> s ∈ X.
Proof.
  unfold matches. rewrite filter_In. intros [_ H].
  now apply bool_decide_eq_true in H.
Qed.

Lemma firstn_In {A : Type} (n : nat) (l : list A) (x : A) :
  In x (firstn n l) -> In x l.
Proof.
  revert l. induction n as [|n IH]; intros [|y l]; simpl; try tauto.
  intros [H|H]; auto.
Qed.

(** X11. With a target of at least one, [main] reaches the scan exactly
    when a key was read, the listing was fetched and at least one
    candidate is tradable (the two emptiness tests on the listing and on
    the set then hold of themselves); the universe scanned is then the
    first [target] matches, it is not empty, has at most [target]
    symbols, and every symbol of it is in the venue's set. *)
Theorem scan_runs_on_tradable_universe
        (file : option string) (cmc_data : option (list coin_data))
        (binance_symbols_set : gset string) (target : nat) (universe : list string) :
  (1 <= target)%nat ->
  (universe_of_run file cmc_data binance_symbols_set target = Some universe <->
   (exists key, read_api_key file = Some key)
   /\ exists data,
       cmc_data = Some data
       /\ universe = firstn target (matches binance_symbols_set data)
       /\ universe <> [])
  /\ (universe_of_run file cmc_data binance_symbols_set target = Some universe ->
      Forall (fun s => s ∈ binance_symbols_set) universe
      /\ (List.length universe <= target)%nat).
Proof.
  intros Htarget.
  assert (Hres : forall data,
             resolve target binance_symbols_set data
             = firstn target (matches binance_symbols_set data)).
  { intros data. unfold resolve. rewrite match_loop_fst by (simpl; lia).
    cbn [app List.length]. now rewrite Nat.sub_0_r. }
  assert (Hiff :
            universe_of_run file cmc_data binance_symbols_set target = Some universe <->
            (exists key, read_api_key file = Some key)
            /\ exists data,
                cmc_data = Some data
                /\ universe = firstn target (matches binance_symbols_set data)
                /\ universe <> []).
  { unfold universe_of_run. split.
    - destruct (read_api_key file) as [key|]; [|discriminate].
      destruct cmc_data as [[|c data]|]; try discriminate.
      destruct (bool_decide (binance_symbols_set = ∅)); [discriminate|].
      rewrite Hres.
      destruct (firstn target (matches binance_symbols_set (c :: data)))
        as [|s rest] eqn:Hu; [discriminate|].
      intros H. injection H as <-.
      split; [now exists key|]. exists (c :: data).
      repeat split; [now symmetry|discriminate].
    - intros ((key & ->) & data & -> & -> & Hne).
      assert (Hin : exists s, In s (matches binance_symbols_set data)).
      { destruct (firstn target (matches binance_symbols_set data)) as [|s rest] eqn:Hu;
          [contradiction|].
        exists s. apply (firstn_In target). rewrite Hu. now left. }
      destruct Hin as (s & Hs).
      destruct data as [|c data]; [contradiction|].
      rewrite bool_decide_eq_false_2.
      + rewrite Hres.
        destruct (firstn target (matches binance_symbols_set (c :: data)));
          [contradiction|reflexivity].
      + intros Hempty. apply matches_tradable in Hs.
        rewrite Hempty in Hs. now apply not_elem_of_empty in Hs. }
  split; [exact Hiff|].
  intros H. apply Hiff in H as (_ & data & _ & -> & _). split.
  - rewrite Forall_forall. intros s Hs.
    apply firstn_In in Hs. now apply matches_tradable in Hs.
  - rewrite length_firstn. lia.
Qed.

Lemma scan_runs_on_tradable_universe_witness :
  universe_of_run (Some " key ") (Some example_listing) example_set 2
  = Some ["BTCUSDT"; "ETHUSDT"]%string.
Proof.
  apply (proj1 (scan_runs_on_tradable_universe
                  (Some " key ") (Some example_listing) example_set 2
                  ["BTCUSDT"; "ETHUSDT"]%string ltac:(lia))).
  split; [now exists "key"|].
  exists example_listing. split; [reflexivity|].
  split; [vm_compute; reflexivity|discriminate].
Defined.

End Startup.

(** ** The coin column of the tables *)

Module Presentation.
Import Universe.

Open Scope string_scope.

(** [s.replace('USDT', '')]: every occurrence of [USDT], found left to
    right without overlap, is removed. *)
Fixpoint replace_USDT (s : string) : string :=
  match s with
  | EmptyString => EmptyString
  | String a rest =>
      match rest with
      | String b (String c (String d after)) =>
          if ((a =? "U")%char && (b =? "S")%char
              && (c =? "D")%char && (d =? "T")%char)%bool
          then replace_USDT after
          else String a (replace_USDT rest)
      | _ => String a (replace_USDT rest)
      end
  end.

(** [display_coin = data['coin'].replace('USDT', '')]. *)
Definition display_coin (coin : string) : string := replace_USDT coin.

(** [s] begins with [USDT]. *)
Definition starts_USDT (s : string) : bool :=
  match s with
  | String a (String b (String c (String d _))) =>
      ((a =? "U")%char && (b =? "S")%char
       && (c =? "D")%char && (d =? "T")%char)%bool
  | _ => false
  end.

(** ['USDT' in s]. *)
Fixpoint contains_USDT (s : string) : bool :=
  match s with
  | EmptyString => false
  | String a rest => (starts_USDT s || contains_USDT rest)%bool
  end.

Lemma replace_unfold (a : ascii) (rest : string) :
  replace_USDT (String a rest)
  = if starts_USDT (String a rest)
    then replace_USDT (match rest with
                       | String _ (String _ (String _ after)) => after
                       | _ => EmptyString
                       end)
    else String a (replace_USDT rest).
Proof.
  destruct rest as [|b [|c [|d after]]]; reflexivity.
Qed.

(** No occurrence of [USDT] begins inside [s] and ends inside the
    appended suffix. *)
Lemma starts_app (a : ascii) (rest : string) :
  starts_USDT (String a rest) = false ->
  starts_USDT (String a (rest ++ "USDT")) = false.
Proof.
  destruct rest as [|b [|c [|d after]]]; intros H.
  - cbv [append starts_USDT]. destruct (a =? "U")%char; reflexivity.
  - cbv [append starts_USDT].
    destruct (a =? "U")%char, (b =? "S")%char; reflexivity.
  - cbv [append starts_USDT].
    destruct (a =? "U")%char, (b =? "S")%char, (c =? "D")%char; reflexivity.
  - exact H.
Qed.

Lemma replace_suffix (s : string) :
  contains_USDT s = false -> replace_USDT (s ++ "USDT") = s.
Proof.
  induction s as [|a rest IH]; [reflexivity|].
  intros H. cbn [contains_USDT] in H. apply orb_false_iff in H as [Hstart Hrest].
  change (String a rest ++ "USDT") with (String a (rest ++ "USDT")).
  rewrite replace_unfold, (starts_app a rest Hstart), (IH Hrest).
  reflexivity.
Qed.

(** X12. The coin column shows a universe symbol without its [USDT]
    suffix, that is the candidate's ticker in upper case, whenever that
    ticker does not itself contain [USDT]. *)
Theorem display_coin_is_ticker (coin : coin_data) :
  contains_USDT (upper (default "" (coin !! "symbol"))) = false ->
  display_coin (binance_symbol_of coin) = upper (default "" (coin !! "symbol")).
Proof.
  intros H. unfold display_coin, binance_symbol_of. now apply replace_suffix.
Qed.

Lemma display_coin_is_ticker_witness :
  display_coin (binance_symbol_of {[ "symbol" := "btc" ]})
  = upper (default "" (({[ "symbol" := "btc" ]} : coin_data) !! "symbol"))
  /\ upper (default "" (({[ "symbol" := "btc" ]} : coin_data) !! "symbol")) = "BTC".
Proof.
  split; [|vm_compute; reflexivity].
  apply (display_coin_is_ticker {[ "symbol" := "btc" ]}).
  vm_compute. reflexivity.
Defined.

End Presentation.

(** ** The wait between two scans of the detector *)

Module Countdown.

Open Scope Z_scope.

(** [range(total_seconds, -1, -1)]. *)
Definition range_down (total_seconds : Z) : list Z :=
  map (fun k => total_seconds - Z.of_nat k) (seq 0 (Z.to_nat (total_seconds + 1))).

(** [countdown_timer(minutes)]: the [(mins, secs)] of each turn of the
    loop, each turn ending with a sleep of one second. *)
Definition countdown_timer (minutes : Z) : list (Z * Z) :=
  let total_seconds := minutes * 60 in
  map (fun i => (i / 60, i mod 60)) (range_down total_seconds).

(** X13. The countdown sleeps once per turn, [60 * minutes + 1] times in
    all (one second more than the interval, and not at all for a negative
    interval); turn [k] shows the minutes and seconds of the
    [60 * minutes - k] seconds left, with the seconds below 60. *)
Theorem countdown_turns (minutes : Z) :
  List.length (countdown_timer minutes) = Z.to_nat (60 * minutes + 1)
  /\ forall k mins secs,
       nth_error (countdown_timer minutes) k = Some (mins, secs) ->
       mins * 60 + secs = 60 * minutes - Z.of_nat k
       /\ 0 <= secs < 60 /\ 0 <= mins <= minutes.
Proof.
  unfold countdown_timer, range_down. split.
  - rewrite !length_map, length_seq. f_equal. lia.
  - intros k mins secs H. rewrite !nth_error_map in H.
    destruct (nth_error (seq 0 (Z.to_nat (minutes * 60 + 1))) k) as [j|] eqn:Hj;
      [|discriminate].
    pose proof (nth_error_Some (seq 0 (Z.to_nat (minutes * 60 + 1))) k) as Hlen.
    rewrite Hj, length_seq in Hlen.
    assert (Hk : (k < Z.to_nat (minutes * 60 + 1))%nat)
      by (apply Hlen; discriminate).
    apply nth_error_nth with (d := 0%nat) in Hj.
    rewrite seq_nth in Hj by exact Hk. simpl in Hj. subst j.
    simpl in H. injection H as <- <-.
    set (i := minutes * 60 - Z.of_nat k).
    assert (Hi : 0 <= i) by (unfold i; lia).
    pose proof (Z.div_mod i 60 ltac:(lia)) as Hdm.
    pose proof (Z.mod_pos_bound i 60 ltac:(lia)) as Hmod.
    pose proof (Z.div_pos i 60 Hi ltac:(lia)) as Hdiv.
    assert (Hle : i / 60 <= minutes).
    { apply Z.div_le_upper_bound; unfold i; lia. }
    unfold i in *. lia.
Qed.

End Countdown.
